(** * User-record management: query engine, collection store, CSV exporter

    A shallow embedding of the client-side core of the application:
    - [useFilteredUsers] (composable: filter pipeline and sort comparator),
    - [useUsers] (composable: the collection store and its
      [withLoadingAndError] wrapper),
    - [csvExport.ts] ([formatDate], [escapeCsvValue], [usersToCSV]).

    JavaScript strings are modelled as [string] (one character per code
    unit, code units below 256); a [Date] is its time value in
    milliseconds since the epoch, or the invalid date (time value NaN). *)

From Stdlib Require Import ZArith Lia Bool List Permutation Sorting.Sorted.
From Stdlib Require Import Strings.Ascii Strings.String.
From stdpp Require Import base option list gmap.

Local Open Scope Z_scope.

(* String concatenation computes by [simpl] in this file. *)
#[local] Arguments String.append !_ _ / : simpl nomatch.

(** ** Strings of the JavaScript runtime *)

Module JsString.

(** [s.includes(c)] for a one-character pattern. *)
Fixpoint includes (c : ascii) (s : string) : bool :=
  match s with
  | EmptyString => false
  | String d s' => if Ascii.eqb d c then true else includes c s'
  end.

(** [s.replace(/c/g, r)]: every occurrence of the character [c] is
    replaced by [r]. *)
Fixpoint replaceAll (c : ascii) (r : string) (s : string) : string :=
  match s with
  | EmptyString => EmptyString
  | String d s' =>
      if Ascii.eqb d c then String.append r (replaceAll c r s')
      else String d (replaceAll c r s')
  end.

(** [s.split(c)[0]]: the part of [s] before the first [c], all of [s]
    when [c] does not occur. *)
Fixpoint splitHead (c : ascii) (s : string) : string :=
  match s with
  | EmptyString => EmptyString
  | String d s' => if Ascii.eqb d c then EmptyString else String d (splitHead c s')
  end.

(** [parts.join(sep)]. *)
Fixpoint join (sep : string) (parts : list string) : string :=
  match parts with
  | [] => EmptyString
  | [p] => p
  | p :: rest => String.append p (String.append sep (join sep rest))
  end.

(** WhiteSpace and LineTerminator code units (below 256): TAB, LF, VT,
    FF, CR, SPACE, NBSP. *)
Definition isWhiteSpace (c : ascii) : bool :=
  let n := nat_of_ascii c in
  (Nat.eqb n 9 || Nat.eqb n 10 || Nat.eqb n 11 || Nat.eqb n 12
   || Nat.eqb n 13 || Nat.eqb n 32 || Nat.eqb n 160)%bool.

Fixpoint trimStart (s : string) : string :=
  match s with
  | EmptyString => EmptyString
  | String c s' => if isWhiteSpace c then trimStart s' else s
  end.

(** [trimEnd], by one pass from the right: a character is dropped when
    it is white space and everything after it was dropped. *)
Fixpoint trimEnd (s : string) : string :=
  match s with
  | EmptyString => EmptyString
  | String c s' =>
      match trimEnd s' with
      | EmptyString => if isWhiteSpace c then EmptyString else String c EmptyString
      | t => String c t
      end
  end.

(** [s.trim()]. *)
Definition trim (s : string) : string := trimEnd (trimStart s).

(** JavaScript truthiness of a string: the empty string is falsy. *)
Definition truthy (s : string) : bool :=
  match s with EmptyString => false | String _ _ => true end.

(** [v || ''] for a [string | undefined] value. *)
Definition orEmpty (v : option string) : string :=
  match v with Some s => s | None => EmptyString end.

(** Every character of [s] satisfies [p]. *)
Fixpoint all (p : ascii -> bool) (s : string) : bool :=
  match s with
  | EmptyString => true
  | String c s' => p c && all p s'
  end.

End JsString.

(** ** Dates of the JavaScript runtime (ECMAScript, Date objects) *)

Module JsDate.

(** A Date object: a finite time value (milliseconds since
    1970-01-01T00:00:00Z), or the invalid date whose time value is NaN. *)
Inductive Date : Type :=
| TimeValue (tv : Z)
| InvalidDate.

Definition msPerDay : Z := 86400000.

Definition Day (t : Z) : Z := t / msPerDay.
Definition TimeWithinDay (t : Z) : Z := t mod msPerDay.

(** Proleptic Gregorian date (year, month 1..12, day 1..31) of a day
    number counted from 1970-01-01, by 400-year eras starting on
    March 1st. *)
Definition civilFromDays (z : Z) : Z * Z * Z :=
  let z' := z + 719468 in
  let era := z' / 146097 in
  let doe := z' - era * 146097 in
  let yoe := (doe - doe / 1460 + doe / 36524 - doe / 146096) / 365 in
  let doy := doe - (365 * yoe + yoe / 4 - yoe / 100) in
  let mp := (5 * doy + 2) / 153 in
  let d := doy - (153 * mp + 2) / 5 + 1 in
  let m := if mp <? 10 then mp + 3 else mp - 9 in
  let y := yoe + era * 400 + (if m <=? 2 then 1 else 0) in
  (y, m, d).

(** Day number of a proleptic Gregorian date (MakeDay). *)
Definition daysFromCivil (y m d : Z) : Z :=
  let y' := if m <=? 2 then y - 1 else y in
  let era := y' / 400 in
  let yoe := y' - era * 400 in
  let mp := if m <=? 2 then m + 9 else m - 3 in
  let doy := (153 * mp + 2) / 5 + d - 1 in
  let doe := yoe * 365 + yoe / 4 - yoe / 100 + doy in
  era * 146097 + doe - 719468.

Definition YearFromTime (t : Z) : Z := fst (fst (civilFromDays (Day t))).
(** Month number, 0 for January (as [getUTCMonth]). *)
Definition MonthFromTime (t : Z) : Z := snd (fst (civilFromDays (Day t))) - 1.
Definition DateFromTime (t : Z) : Z := snd (civilFromDays (Day t)).
(** 0 for Sunday; 1970-01-01 was a Thursday. *)
Definition WeekDay (t : Z) : Z := (Day t + 4) mod 7.
Definition HourFromTime (t : Z) : Z := (t / 3600000) mod 24.
Definition MinFromTime (t : Z) : Z := (t / 60000) mod 60.
Definition SecFromTime (t : Z) : Z := (t / 1000) mod 60.
Definition msFromTime (t : Z) : Z := t mod 1000.

Definition isLeapYear (y : Z) : bool :=
  ((y mod 4 =? 0) && negb (y mod 100 =? 0) || (y mod 400 =? 0))%bool.

Definition DaysInMonth (y m : Z) : Z :=
  if m =? 2 then (if isLeapYear y then 29 else 28)
  else if (m =? 4) || (m =? 6) || (m =? 9) || (m =? 11) then 30
  else 31.

(** *** Decimal rendering *)

Definition digitChar (d : Z) : ascii := ascii_of_nat (48 + Z.to_nat d).

(** The [w] low decimal digits of [n], most significant first. *)
Fixpoint padDec (w : nat) (n : Z) : string :=
  match w with
  | O => EmptyString
  | S w' => String.append (padDec w' (n / 10)) (String (digitChar (n mod 10)) EmptyString)
  end.

Fixpoint numDigitsAux (fuel : nat) (n : Z) : nat :=
  match fuel with
  | O => 1
  | S f => if n <? 10 then 1%nat else S (numDigitsAux f (n / 10))
  end.

(** Number of decimal digits of [n >= 0]; the binary logarithm bounds
    the number of divisions by ten. *)
Definition numDigits (n : Z) : nat := numDigitsAux (Z.to_nat (Z.log2 n)) n.

(** ToZeroPaddedDecimalString(n, minLength). *)
Definition ToZeroPaddedDecimalString (n : Z) (minLength : nat) : string :=
  padDec (Nat.max minLength (numDigits n)) n.

Definition weekDayName (w : Z) : string :=
  match w with
  | 0 => "Sun" | 1 => "Mon" | 2 => "Tue" | 3 => "Wed"
  | 4 => "Thu" | 5 => "Fri" | _ => "Sat"
  end%string.

Definition monthName (m : Z) : string :=
  match m with
  | 0 => "Jan" | 1 => "Feb" | 2 => "Mar" | 3 => "Apr" | 4 => "May"
  | 5 => "Jun" | 6 => "Jul" | 7 => "Aug" | 8 => "Sep" | 9 => "Oct"
  | 10 => "Nov" | _ => "Dec"
  end%string.

(** DateString(tv): "Www Mmm DD YYYY" of a (local) time value. *)
Definition DateString (tv : Z) : string :=
  let y := YearFromTime tv in
  let yearSign := if 0 <=? y then ""%string else "-"%string in
  String.concat " "%string
    [ weekDayName (WeekDay tv); monthName (MonthFromTime tv);
      padDec 2 (DateFromTime tv);
      String.append yearSign (ToZeroPaddedDecimalString (Z.abs y) 4) ].

(** The year of the Date Time String Format: four digits for years
    0..9999, otherwise a sign and six digits (expanded years). *)
Definition isoYear (y : Z) : string :=
  if (0 <=? y) && (y <=? 9999) then padDec 4 y
  else String.append (if 0 <=? y then "+"%string else "-"%string)
                     (ToZeroPaddedDecimalString (Z.abs y) 6).

(** The calendar-date part "YYYY-MM-DD" of the Date Time String Format. *)
Definition isoDate (tv : Z) : string :=
  String.concat "-"%string
    [ isoYear (YearFromTime tv); padDec 2 (MonthFromTime tv + 1);
      padDec 2 (DateFromTime tv) ].

Definition isoTime (tv : Z) : string :=
  String.append
    (String.concat ":"%string
       [ padDec 2 (HourFromTime tv); padDec 2 (MinFromTime tv);
         padDec 2 (SecFromTime tv) ])
    (String.append "."%string (padDec 3 (msFromTime tv))).

(** *** Methods of Date objects

    The local time zone is a parameter of the runtime: [LocalTZA t] is
    the offset of local time from UTC, in milliseconds, at the instant
    [t]. *)
Section Methods.
Variable LocalTZA : Z -> Z.

Definition LocalTime (t : Z) : Z := t + LocalTZA t.

(** [d.toDateString()]: the date portion, in the local time zone. *)
Definition toDateString (d : Date) : string :=
  match d with
  | TimeValue tv => DateString (LocalTime tv)
  | InvalidDate => "Invalid Date"%string
  end.
End Methods.

(** [d.toISOString()], in UTC; [None] when it throws a RangeError (the
    time value is not finite). *)
Definition toISOString (d : Date) : option string :=
  match d with
  | TimeValue tv =>
      Some (String.append (isoDate tv)
              (String.append "T" (String.append (isoTime tv) "Z"))%string)
  | InvalidDate => None
  end.

(** [d.getTime()]; [None] stands for NaN. *)
Definition getTime (d : Date) : option Z :=
  match d with TimeValue tv => Some tv | InvalidDate => None end.

(** *** Parsing, [new Date(string)] *)

Definition digitVal (c : ascii) : option Z :=
  let n := nat_of_ascii c in
  if (Nat.leb 48 n && Nat.leb n 57)%bool then Some (Z.of_nat n - 48) else None.

Fixpoint digitsVal (acc : Z) (s : string) : option Z :=
  match s with
  | EmptyString => Some acc
  | String c s' =>
      match digitVal c with
      | Some v => digitsVal (10 * acc + v) s'
      | None => None
      end
  end.

(** The date-only form YYYY-MM-DD of the Date Time String Format, with
    a month and a day of the month that exist: the time value is
    midnight UTC of that day.  [None] for every other string. *)
Definition parseDateOnly (s : string) : option Z :=
  if Nat.eqb (String.length s) 10 then
    match digitsVal 0 (String.substring 0 4 s), String.get 4 s,
          digitsVal 0 (String.substring 5 2 s), String.get 7 s,
          digitsVal 0 (String.substring 8 2 s) with
    | Some y, Some "-"%char, Some m, Some "-"%char, Some d =>
        if (1 <=? m) && (m <=? 12) && (1 <=? d) && (d <=? DaysInMonth y m)
        then Some (daysFromCivil y m d * msPerDay)
        else None
    | _, _, _, _, _ => None
    end
  else None.

Section Parse.
(** What the runtime's parser makes of a string that is not of the
    date-only form (other forms of the format, and the
    implementation-defined fallback). *)
Variable parseOther : string -> Date.

(** [new Date(s)] for a string [s]. *)
Definition ofString (s : string) : Date :=
  match parseDateOnly s with
  | Some tv => TimeValue tv
  | None => parseOther s
  end.
End Parse.

(** [new Date(d)] for a Date [d]: a copy with the same time value. *)
Definition ofDate (d : Date) : Date := d.

End JsDate.

(** ** Data model ([models/user.ts]) *)

Import JsDate.

(** [gender: z.enum(['male', 'female'])]. *)
Inductive Gender : Type := male | female.

Definition genderString (g : Gender) : string :=
  match g with male => "male" | female => "female" end.

Definition Gender_eqb (g h : Gender) : bool :=
  match g, h with
  | male, male | female, female => true
  | _, _ => false
  end.

(** [type User = z.infer<typeof userSchema> & { id?: string }]; the
    optional fields [id] and [profilePicture] are [None] when undefined. *)
Record User : Type := mkUser {
  id : option string;
  name : string;
  email : string;
  dateOfBirth : Date;
  gender : Gender;
  profilePicture : option string;
  createdAt : Date;
  updatedAt : Date
}.

(** ** CSV exporter ([lib/csvExport.ts]) *)

Module CsvExport.

Definition comma : ascii := ","%char.
Definition dquote : ascii := "034"%char.
Definition newline : ascii := "010"%char.
Definition quoteStr : string := String dquote EmptyString.

(** [formatDate]: the part of [date.toISOString()] before the "T"; the
    empty string when [toISOString] throws (the [catch] branch). *)
Definition formatDate (date : Date) : string :=
  match toISOString date with
  | Some isoString =>
      let part0 := JsString.splitHead "T" isoString in
      if JsString.truthy part0 then part0 else EmptyString
  | None => EmptyString
  end.

(** The values [escapeCsvValue] is applied to. *)
Inductive CellValue : Type :=
| VNull
| VUndefined
| VString (s : string).

Definition needsQuoting (stringValue : string) : bool :=
  JsString.includes comma stringValue
  || JsString.includes dquote stringValue
  || JsString.includes newline stringValue.

Definition quoted (stringValue : string) : string :=
  String.append quoteStr
    (String.append (JsString.replaceAll dquote (String dquote quoteStr) stringValue)
                   quoteStr).

Definition escapeCsvValue (value : CellValue) : string :=
  match value with
  | VNull | VUndefined => EmptyString
  | VString stringValue =>
      if needsQuoting stringValue then quoted stringValue else stringValue
  end.

Definition headers : list string :=
  [ "Name"; "Email"; "Date of Birth"; "Gender"; "Profile Picture";
    "Created At"; "Updated At"; "ID" ]%string.

Definition headerRow : string :=
  JsString.join "," (List.map (fun h => escapeCsvValue (VString h)) headers).

(** The [values] array built for one user. *)
Definition values (user : User) : list string :=
  [ name user;
    email user;
    formatDate (ofDate (dateOfBirth user));
    genderString (gender user);
    JsString.orEmpty (profilePicture user);
    formatDate (ofDate (createdAt user));
    formatDate (ofDate (updatedAt user));
    JsString.orEmpty (id user) ].

(** [values.map(escapeCsvValue)]. *)
Definition cells (user : User) : list string :=
  List.map (fun v => escapeCsvValue (VString v)) (values user).

Definition row (user : User) : string := JsString.join "," (cells user).

Definition usersToCSV (users : list User) : string :=
  JsString.join (String newline EmptyString) (headerRow :: List.map row users).

End CsvExport.

(** ** The runtime the query engine runs in *)

(** What the JavaScript runtime supplies and the source does not fix:
    the local time zone, the parser's reading of strings that are not of
    the date-only form, and the collation of [String.prototype.localeCompare]
    (negative, zero or positive). *)
Record Runtime : Type := mkRuntime {
  LocalTZA : Z -> Z;
  parseOther : string -> Date;
  localeCompare : string -> string -> Z
}.

(** ** Arrays ([Array.prototype.sort]) *)

Module JsArray.
Section Sort.
Context {A : Type}.
Variable compareFn : A -> A -> Z.

(** Insertion of [x] before the first element it does not sort after. *)
Fixpoint insertSorted (x : A) (l : list A) : list A :=
  match l with
  | [] => [x]
  | y :: l' => if compareFn x y <=? 0 then x :: l else y :: insertSorted x l'
  end.

(** [arr.sort(compareFn)], as the contents of the array afterwards.
    The sort is stable (ES2019): elements that compare equal keep
    their order, an element of the input coming first when it does
    not sort after a later one. *)
Definition sort (l : list A) : list A := fold_right insertSorted [] l.
End Sort.

(** *** Array objects

    Arrays are objects: a variable holds a reference, and two variables
    may hold the same one.  The store maps each reference to the
    contents of its array; a computation threads the store and fails
    ([None]) on a reference that is not allocated. *)
Definition ref : Type := nat.
Abbreviation store A := (gmap nat (list A)) (only parsing).

Section Objects.
Context {A : Type}.

Definition M (T : Type) : Type := store A -> option (T * store A).

Definition ret {T} (x : T) : M T := fun h => Some (x, h).
Definition bind {T U} (c : M T) (k : T -> M U) : M U :=
  fun h => match c h with Some (x, h') => k x h' | None => None end.

Definition read (a : ref) : M (list A) :=
  fun h => match h !! a with Some l => Some (l, h) | None => None end.

(** A new array object, at a reference not in use. *)
Definition alloc (l : list A) : M ref :=
  fun h => let a := fresh (dom h) in Some (a, <[a := l]> h).

Definition write (a : ref) (l : list A) : M unit :=
  fun h => match h !! a with Some _ => Some (tt, <[a := l]> h) | None => None end.

(** [arr.filter(p)]: a new array. *)
Definition filter (p : A -> bool) (arr : ref) : M ref :=
  bind (read arr) (fun l => alloc (List.filter p l)).

(** [[...arr]]: a new array with the same elements. *)
Definition spread (arr : ref) : M ref :=
  bind (read arr) alloc.

(** [arr.sort(compareFn)]: sorts [arr] in place and returns [arr]. *)
Definition sortInPlace (compareFn : A -> A -> Z) (arr : ref) : M ref :=
  bind (read arr) (fun l =>
  bind (write arr (sort compareFn l)) (fun _ => ret arr)).
End Objects.
End JsArray.

Notation "x <- c ;; k" := (JsArray.bind c (fun x => k))
  (at level 100, c at next level, right associativity).

(** ** Query engine (composable [useFilteredUsers]) *)

Module useFilteredUsers.

Inductive GenderFilter : Type := GenderAll | GenderIs (g : Gender).
Inductive PictureFilter : Type := PictureWith | PictureWithout | PictureAll.

Record FilterCriteria : Type := mkFilterCriteria {
  genderFilter : GenderFilter;
  profilePictureFilter : PictureFilter;
  dateOfBirthFilter : string;
  createdAtFilter : string;
  updatedAtFilter : string
}.

(** [keyof User]. *)
Inductive SortKey : Type :=
| KeyId | KeyName | KeyEmail | KeyDateOfBirth | KeyGender
| KeyProfilePicture | KeyCreatedAt | KeyUpdatedAt.

Inductive SortOrder : Type := asc | desc.

Record SortCriteria : Type := mkSortCriteria {
  sortBy : SortKey;
  sortOrder : SortOrder
}.

(** The value [a[key]] of a user's property. *)
Inductive FieldValue : Type :=
| FDate (d : Date)
| FString (s : string)
| FUndefined.

Definition ofOptionString (v : option string) : FieldValue :=
  match v with Some s => FString s | None => FUndefined end.

Definition field (key : SortKey) (u : User) : FieldValue :=
  match key with
  | KeyId => ofOptionString (id u)
  | KeyName => FString (name u)
  | KeyEmail => FString (email u)
  | KeyDateOfBirth => FDate (dateOfBirth u)
  | KeyGender => FString (genderString (gender u))
  | KeyProfilePicture => ofOptionString (profilePicture u)
  | KeyCreatedAt => FDate (createdAt u)
  | KeyUpdatedAt => FDate (updatedAt u)
  end.

(** [(v as string) || ''] for a property value that is a string or
    undefined. *)
Definition stringOrEmpty (v : FieldValue) : string :=
  match v with FString s => s | _ => EmptyString end.

(** [x.getTime() - y.getTime()]; the difference is NaN when a date is
    invalid, and [Array.prototype.sort] reads a NaN result as +0. *)
Definition timeDifference (x y : Date) : Z :=
  match getTime x, getTime y with
  | Some tx, Some ty => tx - ty
  | _, _ => 0
  end.

Definition isKeyGender (k : SortKey) : bool :=
  match k with KeyGender => true | _ => false end.
Definition isKeyProfilePicture (k : SortKey) : bool :=
  match k with KeyProfilePicture => true | _ => false end.

Section Engine.
Variable rt : Runtime.
Variable filterCriteria : FilterCriteria.
Variable sortCriteria : SortCriteria.

(** *** The predicates of the five filter stages *)

Definition genderStage (g : Gender) (user : User) : bool :=
  Gender_eqb (gender user) g.

(** [user.profilePicture && user.profilePicture.trim() !== ''], as
    its truthiness. *)
Definition hasProfilePicture (user : User) : bool :=
  match profilePicture user with
  | Some p => JsString.truthy p && negb (String.eqb (JsString.trim p) EmptyString)
  | None => false
  end.

Definition pictureStage (f : PictureFilter) (user : User) : bool :=
  match f with
  | PictureWith => hasProfilePicture user
  | _ => negb (hasProfilePicture user)
  end.

(** [userDate.toDateString() === filterDate.toDateString()]. *)
Definition sameDateString (filterDate userDate : Date) : bool :=
  String.eqb (toDateString (LocalTZA rt) userDate)
             (toDateString (LocalTZA rt) filterDate).

Definition dateStage (filterValue : string) (get : User -> Date) (user : User) : bool :=
  let filterDate := ofString (parseOther rt) filterValue in
  let userDate := ofDate (get user) in
  sameDateString filterDate userDate.

(** *** The sort comparator *)

Definition compareUsers (a b : User) : Z :=
  let aVal := field (sortBy sortCriteria) a in
  let bVal := field (sortBy sortCriteria) b in
  match aVal, bVal with
  | FDate da, FDate db =>
      match sortOrder sortCriteria with
      | asc => timeDifference da db
      | desc => timeDifference db da
      end
  | _, _ =>
      if isKeyGender (sortBy sortCriteria) then
        let aGender := genderString (gender a) in
        let bGender := genderString (gender b) in
        match sortOrder sortCriteria with
        | asc => localeCompare rt aGender bGender
        | desc => localeCompare rt bGender aGender
        end
      else if isKeyProfilePicture (sortBy sortCriteria) then
        let aStr := stringOrEmpty aVal in
        let bStr := stringOrEmpty bVal in
        if negb (JsString.truthy aStr) && negb (JsString.truthy bStr) then 0
        else if negb (JsString.truthy aStr) then
          match sortOrder sortCriteria with asc => 1 | desc => -1 end
        else if negb (JsString.truthy bStr) then
          match sortOrder sortCriteria with asc => -1 | desc => 1 end
        else
          match sortOrder sortCriteria with
          | asc => localeCompare rt aStr bStr
          | desc => localeCompare rt bStr aStr
          end
      else
        match aVal, bVal with
        | FString sa, FString sb =>
            match sortOrder sortCriteria with
            | asc => localeCompare rt sa sb
            | desc => localeCompare rt sb sa
            end
        | _, _ => 0
        end
  end.

(** *** The contents of the view *)

Definition applyGender (l : list User) : list User :=
  match genderFilter filterCriteria with
  | GenderAll => l
  | GenderIs g => List.filter (genderStage g) l
  end.

Definition applyPicture (l : list User) : list User :=
  match profilePictureFilter filterCriteria with
  | PictureAll => l
  | f => List.filter (pictureStage f) l
  end.

Definition applyDate (filterValue : string) (get : User -> Date)
    (l : list User) : list User :=
  if JsString.truthy filterValue
  then List.filter (dateStage filterValue get) l
  else l.

Definition applyFilters (l : list User) : list User :=
  applyDate (updatedAtFilter filterCriteria) updatedAt
    (applyDate (createdAtFilter filterCriteria) createdAt
       (applyDate (dateOfBirthFilter filterCriteria) dateOfBirth
          (applyPicture (applyGender l)))).

(** The five stages, each applicable on its own, and their application
    in a given order. *)
Inductive Stage : Type :=
| StageGender | StagePicture | StageDateOfBirth | StageCreatedAt | StageUpdatedAt.

Definition applyStage (st : Stage) (l : list User) : list User :=
  match st with
  | StageGender => applyGender l
  | StagePicture => applyPicture l
  | StageDateOfBirth => applyDate (dateOfBirthFilter filterCriteria) dateOfBirth l
  | StageCreatedAt => applyDate (createdAtFilter filterCriteria) createdAt l
  | StageUpdatedAt => applyDate (updatedAtFilter filterCriteria) updatedAt l
  end.

Definition applyStages (order : list Stage) (l : list User) : list User :=
  fold_left (fun acc st => applyStage st acc) order l.

(** The order of the stages in the source. *)
Definition sourceOrder : list Stage :=
  [StageGender; StagePicture; StageDateOfBirth; StageCreatedAt; StageUpdatedAt].

(** The contents of the computed [filteredUsers] for a collection
    with the contents [l]. *)
Definition view (l : list User) : list User :=
  JsArray.sort compareUsers (applyFilters l).

(** *** The computed [filteredUsers], on array objects *)

Definition dateFilter (filterValue : string) (get : User -> Date)
    (result : JsArray.ref) : JsArray.M JsArray.ref :=
  if JsString.truthy filterValue
  then JsArray.filter (dateStage filterValue get) result
  else JsArray.ret result.

Definition filteredUsers (users : JsArray.ref) : JsArray.M JsArray.ref :=
  let result := users in
  result <- match genderFilter filterCriteria with
            | GenderAll => JsArray.ret result
            | GenderIs g => JsArray.filter (genderStage g) result
            end ;;
  result <- match profilePictureFilter filterCriteria with
            | PictureAll => JsArray.ret result
            | f => JsArray.filter (pictureStage f) result
            end ;;
  result <- dateFilter (dateOfBirthFilter filterCriteria) dateOfBirth result ;;
  result <- dateFilter (createdAtFilter filterCriteria) createdAt result ;;
  result <- dateFilter (updatedAtFilter filterCriteria) updatedAt result ;;
  copy <- JsArray.spread result ;;
  JsArray.sortInPlace compareUsers copy.

End Engine.
End useFilteredUsers.

(** ** Collection store (composable [useUsers]) *)

Module useUsers.

(** The module-level refs [users], [loading] and [error]. *)
Record State : Type := mkState {
  users : list User;
  loading : bool;
  error : option string
}.

Definition setUsers (l : list User) (s : State) : State :=
  mkState l (loading s) (error s).
Definition setLoading (b : bool) (s : State) : State :=
  mkState (users s) b (error s).
Definition setError (e : option string) (s : State) : State :=
  mkState (users s) (loading s) e.

(** A thrown value: an [Error] with its message, or anything else. *)
Inductive Thrown : Type :=
| ThrownError (message : string)
| ThrownOther.

(** How a promise settles. *)
Inductive Outcome (T : Type) : Type :=
| Resolved (v : T)
| Rejected (err : Thrown).
Arguments Resolved {T} v.
Arguments Rejected {T} err.

(** An async operation of the store, run to completion: how it settles
    and the state it leaves. *)
Definition Operation (T : Type) : Type := State -> Outcome T * State.

(** [const v = await p; ...]: a rejection of [p] is thrown at the
    [await], before the rest of the body runs. *)
Definition await {R T} (p : Outcome R) (k : R -> Operation T) : Operation T :=
  fun s => match p with
           | Resolved v => k v s
           | Rejected err => (Rejected err, s)
           end.

(** One call of the store, as its caller and the interface observe it:
    the states shown while the call is suspended on the remote store,
    the value the call returns, and the state it leaves. *)
Record Run (T : Type) : Type := mkRun {
  suspended : list State;
  returned : T;
  final : State
}.
Arguments mkRun {T} suspended returned final.
Arguments suspended {T} r.
Arguments returned {T} r.
Arguments final {T} r.

(** [err instanceof Error ? err.message : 'An unexpected error occurred']. *)
Definition errorMessageOf (err : Thrown) : string :=
  match err with
  | ThrownError message => message
  | ThrownOther => "An unexpected error occurred"
  end.

(** [withLoadingAndError(operation)]; the result [None] is [null]. *)
Definition withLoadingAndError {T} (operation : Operation T) (s : State)
    : Run (option T) :=
  let s1 := setError None (setLoading true s) in
  match operation s1 with
  | (Resolved result, s2) => mkRun [s1] (Some result) (setLoading false s2)
  | (Rejected err, s2) =>
      mkRun [s1] None
            (setLoading false (setError (Some (errorMessageOf err)) s2))
  end.

(** [result !== null]. *)
Definition notNull {T} (r : Run (option T)) : Run bool :=
  mkRun (suspended r) (match returned r with Some _ => true | None => false end)
        (final r).

Definition optionStringEqb (x y : option string) : bool :=
  match x, y with
  | Some a, Some b => String.eqb a b
  | None, None => true
  | _, _ => false
  end.

(** [arr.findIndex(p)]; [None] is -1. *)
Fixpoint findIndex {A} (p : A -> bool) (l : list A) : option nat :=
  match l with
  | [] => None
  | x :: l' => if p x then Some O else option_map S (findIndex p l')
  end.

(** [arr.find(p)]. *)
Fixpoint find {A} (p : A -> bool) (l : list A) : option A :=
  match l with
  | [] => None
  | x :: l' => if p x then Some x else find p l'
  end.

(** The remote store answers each call of [userService] with an
    outcome; the operations below take that outcome as an argument. *)

Definition fetchUsers (remote : Outcome (list User)) (s : State) : Run bool :=
  notNull (withLoadingAndError
    (await remote (fun fetchedUsers st =>
       (Resolved fetchedUsers, setUsers fetchedUsers st))) s).

Definition createUser (remote : Outcome User) (s : State) : Run (option User) :=
  withLoadingAndError
    (await remote (fun newUser st =>
       (Resolved newUser, setUsers (newUser :: users st) st))) s.

Definition updateUser (remote : Outcome User) (s : State) : Run (option User) :=
  withLoadingAndError
    (await remote (fun updatedUser st =>
       let index :=
         findIndex (fun user => optionStringEqb (id user) (id updatedUser)) (users st) in
       (Resolved updatedUser,
        match index with
        | Some i => setUsers (<[i := updatedUser]> (users st)) st
        | None => st
        end))) s.

(** [users.value.filter((user) => user.id !== id)]. *)
Definition removeById (id' : string) (l : list User) : list User :=
  List.filter (fun user => negb (optionStringEqb (id user) (Some id'))) l.

Definition deleteUser (id' : string) (remote : Outcome unit) (s : State) : Run bool :=
  notNull (withLoadingAndError
    (await remote (fun _ st => (Resolved true, setUsers (removeById id' (users st)) st))) s).

(** [getUserById]: the in-memory record when there is one, otherwise the
    remote store's answer ([null] when it has no such record). *)
Definition getUserById (id' : string) (remote : Outcome (option User)) (s : State)
    : Run (option User) :=
  match find (fun user => optionStringEqb (id user) (Some id')) (users s) with
  | Some localUser => mkRun [] (Some localUser) s
  | None =>
      let r := withLoadingAndError
                 (await remote (fun found st => (Resolved found, st))) s in
      mkRun (suspended r)
            (match returned r with Some found => found | None => None end)
            (final r)
  end.

(** [refreshUsers]. *)
Definition refreshUsers (remote : Outcome (list User)) (s : State) : Run bool :=
  fetchUsers remote s.

Definition clearError (s : State) : State := setError None s.

Definition resetState (s : State) : State := mkState [] false None.

(** The computed [userCount] and [hasUsers]. *)
Definition userCount (s : State) : nat := length (users s).
Definition hasUsers (s : State) : bool := Nat.ltb 0 (length (users s)).

(** [filterUsersByGender]; [None] is ['all']. *)
Definition filterUsersByGender (gender' : option Gender) (s : State) : list User :=
  match gender' with
  | None => users s
  | Some g => List.filter (fun user => Gender_eqb (gender user) g) (users s)
  end.

(** The comparator of [sortUsers]. *)
Definition compareStored (rt : Runtime) (sortBy : useFilteredUsers.SortKey)
    (order : useFilteredUsers.SortOrder) (a b : User) : Z :=
  let aVal := useFilteredUsers.field sortBy a in
  let bVal := useFilteredUsers.field sortBy b in
  match aVal, bVal with
  | useFilteredUsers.FDate da, useFilteredUsers.FDate db =>
      match order with
      | useFilteredUsers.asc => useFilteredUsers.timeDifference da db
      | useFilteredUsers.desc => useFilteredUsers.timeDifference db da
      end
  | useFilteredUsers.FString sa, useFilteredUsers.FString sb =>
      match order with
      | useFilteredUsers.asc => localeCompare rt sa sb
      | useFilteredUsers.desc => localeCompare rt sb sa
      end
  | _, _ => 0
  end.

(** [sortUsers]: a sorted copy of the list. *)
Definition sortUsers (rt : Runtime) (sortBy : useFilteredUsers.SortKey)
    (order : useFilteredUsers.SortOrder) (s : State) : list User :=
  JsArray.sort (compareStored rt sortBy order) (users s).

End useUsers.

(** ** The user form (component [UserForm]): the date of birth field *)

Module UserForm.

(** The [dateOfBirth] of [getInitialValues] in edit mode,
    [props.user.dateOfBirth.toISOString().split('T')[0]]; [None] when
    [toISOString] throws. *)
Definition initialDateOfBirth (dateOfBirth : Date) : option string :=
  match toISOString dateOfBirth with
  | Some isoString => Some (JsString.splitHead "T" isoString)
  | None => None
  end.

(** The [dateOfBirth] of [userInput] in [onSubmit],
    [values.dateOfBirth ? new Date(values.dateOfBirth) : undefined];
    [None] is undefined. *)
Definition submittedDateOfBirth (rt : Runtime) (value : string) : option Date :=
  if JsString.truthy value then Some (ofString (parseOther rt) value) else None.

End UserForm.

(** ** Validation and date helpers ([models/user.ts]) *)

Module UserModel.

(** [String(n)] for an integer [n]. *)
Definition numberToString (n : Z) : string :=
  if n <? 0 then String.append "-" (ToZeroPaddedDecimalString (- n) 1)
  else ToZeroPaddedDecimalString n 1.

Fixpoint zeros (n : nat) : string :=
  match n with
  | O => EmptyString
  | S n' => String "0" (zeros n')
  end.

(** [s.padStart(targetLength, '0')]. *)
Definition padStart0 (targetLength : nat) (s : string) : string :=
  String.append (zeros (targetLength - String.length s)) s.

Section Clock.
Variable rt : Runtime.
(** The time value of [new Date()], the moment of the call. *)
Variable now : Z.

(** [getFullYear], [getMonth] and [getDate] of a valid date: the fields
    of the local time. *)
Definition getFullYear (t : Z) : Z := YearFromTime (LocalTime (LocalTZA rt) t).
Definition getMonth (t : Z) : Z := MonthFromTime (LocalTime (LocalTZA rt) t).
Definition getDate (t : Z) : Z := DateFromTime (LocalTime (LocalTZA rt) t).

(** [calculateAge]; [None] is NaN, the age of an invalid date (every
    comparison with NaN is false, so the adjustment is not made). *)
Definition calculateAge (dateOfBirth : Date) : option Z :=
  match dateOfBirth with
  | InvalidDate => None
  | TimeValue b =>
      let age := getFullYear now - getFullYear b in
      let monthDiff := getMonth now - getMonth b in
      Some (if (monthDiff <? 0) || ((monthDiff =? 0) && (getDate now <? getDate b))
            then age - 1 else age)
  end.

(** The refinement of the schemas, [age >= 1 && age <= 100]. *)
Definition ageInRange (date : Date) : bool :=
  match calculateAge date with
  | Some age => (1 <=? age) && (age <=? 100)
  | None => false
  end.

(** [formatDateForInput]. *)
Definition formatDateForInput (date : Date) : string :=
  match date with
  | InvalidDate => EmptyString
  | TimeValue t =>
      let year := getFullYear t in
      let month := padStart0 2 (numberToString (getMonth t + 1)) in
      let day := padStart0 2 (numberToString (getDate t)) in
      String.append (numberToString year)
        (String.append "-" (String.append month (String.append "-" day)))
  end.

(** [parseDateFromInput]; [None] is an undefined argument, and
    [new Date('')] is the invalid date. *)
Definition parseDateFromInput (dateString : option string) : Date :=
  match dateString with
  | None => InvalidDate
  | Some s =>
      if negb (JsString.truthy s) || String.eqb (JsString.trim s) EmptyString
      then InvalidDate
      else
        match ofString (parseOther rt) s with
        | InvalidDate => InvalidDate
        | TimeValue tv => TimeValue tv
        end
  end.

End Clock.
End UserModel.

(** ** Vocabulary of the statements *)

Module Props.
Import CsvExport.

(** The string holds the character [c]. *)
Definition contains (c : ascii) (s : string) : Prop :=
  In c (list_ascii_of_string s).

(** The string holds a comma, a double quote or a newline. *)
Definition hasSpecial (s : string) : Prop :=
  contains comma s \/ contains dquote s \/ contains newline s.

Definition isDigit (c : ascii) : bool :=
  let n := nat_of_ascii c in (Nat.leb 48 n && Nat.leb n 57)%bool.

Definition isDash (c : ascii) : bool := Ascii.eqb c "-"%char.

(** Ten characters: four digits, a dash, two digits, a dash, two digits. *)
Definition isYYYYMMDD (s : string) : bool :=
  match s with
  | String y1 (String y2 (String y3 (String y4 (String h1
      (String m1 (String m2 (String h2 (String d1 (String d2 EmptyString))))))))) =>
      isDigit y1 && isDigit y2 && isDigit y3 && isDigit y4 && isDash h1
      && isDigit m1 && isDigit m2 && isDash h2 && isDigit d1 && isDigit d2
  | _ => false
  end.

(** The UTC calendar date of a time value as year, dash, month, dash,
    day of the month, in four, two and two digits. *)
Definition utcCalendarDate (tv : Z) : string :=
  String.append (padDec 4 (YearFromTime tv))
    (String.append "-"
       (String.append (padDec 2 (MonthFromTime tv + 1))
          (String.append "-" (padDec 2 (DateFromTime tv))))).

(** What a date cell is to hold: the UTC calendar date, nothing for an
    invalid date. *)
Definition dateCell (d : Date) : string :=
  match d with
  | TimeValue tv => utcCalendarDate tv
  | InvalidDate => EmptyString
  end.


(** The one-line header of the export. *)
Definition headerLine : string :=
  "Name,Email,Date of Birth,Gender,Profile Picture,Created At,Updated At,ID".

(** The name O'Brien, Jr. written with a double quote for the
    apostrophe, and the cell the scenario expects for it: an opening
    quote, O, two quotes, Brien, Jr. and a closing quote. *)
Definition obrienName : string :=
  String.append "O" (String dquote "Brien, Jr.").
Definition obrienCell : string :=
  String dquote (String.append "O"
    (String dquote (String dquote (String.append "Brien, Jr." quoteStr)))).
End Props.

(** ** Sample data and vocabulary of the later statements *)

(** A collation: by code units. *)
Definition codeUnitCompare (a b : string) : Z :=
  match String.compare a b with Lt => -1 | Eq => 0 | Gt => 1 end.

(** A runtime in the time zone UTC, and one eight hours east of it. *)
Definition utcRuntime : Runtime :=
  mkRuntime (fun _ => 0) (fun _ => InvalidDate) codeUnitCompare.
Definition utcPlus8Runtime : Runtime :=
  mkRuntime (fun _ => 8 * 3600000) (fun _ => InvalidDate) codeUnitCompare.

(** Midnight UTC of a calendar date. *)
Definition midnightUTC (y m d : Z) : Date := TimeValue (daysFromCivil y m d * msPerDay).

(** The two records of the scenario: Bob without a picture, Ann with one. *)
Definition bob : User :=
  mkUser (Some "b"%string) "Bob"%string "bob@example.com"%string
         (midnightUTC 1990 5 1) male (Some EmptyString)
         (midnightUTC 2024 1 2) (midnightUTC 2024 1 2).
Definition ann : User :=
  mkUser (Some "a"%string) "Ann"%string "ann@example.com"%string
         (midnightUTC 1985 1 1) female (Some "http://x"%string)
         (midnightUTC 2024 1 1) (midnightUTC 2024 1 1).

Section ExportVocabulary.
Import JsString CsvExport Props.

(** The characters of a rendered date: digits and the signs. *)
Definition isDateChar (c : ascii) : bool :=
  isDigit c || Ascii.eqb c "-"%char || Ascii.eqb c "+"%char.



(** A record created at 10000-01-01T00:00:00Z. *)
Definition farFutureUser : User :=
  mkUser (Some "u2"%string) "Bob"%string "bob@example.com"%string
         (TimeValue 0) male None
         (TimeValue 253402300800000) (TimeValue 253402300800000).

End ExportVocabulary.

Section StoreVocabulary.
Import useUsers.

(** The wrapper contract of one call [r] made in the state [s], the remote
    store answering [remote]: while the call is suspended the busy flag is
    set and the previous error is cleared; afterwards the busy flag is
    clear; a rejection makes the call return [sentinel], leaves the message
    of the failure in the error state and keeps the list; a resolution
    leaves no error and makes the call return [success v]. *)
Definition followsContract {R T} (remote : Outcome R) (s : State) (r : Run T)
    (sentinel : T) (success : R -> T) : Prop :=
  (exists s1, suspended r = [s1]
              /\ loading s1 = true /\ error s1 = None /\ users s1 = users s)
  /\ loading (final r) = false
  /\ match remote with
     | Rejected err =>
         returned r = sentinel
         /\ error (final r) = Some (errorMessageOf err)
         /\ users (final r) = users s
     | Resolved v =>
         returned r = success v /\ error (final r) = None
     end.

(** Bob renamed, under his id; and a record under an id that no
    in-memory record has. *)
Definition bobRenamed : User :=
  mkUser (Some "b"%string) "Robert"%string "bob@example.com"%string
         (midnightUTC 1990 5 1) male (Some EmptyString)
         (midnightUTC 2024 1 2) (midnightUTC 2024 2 2).
Definition stranger : User :=
  mkUser (Some "z"%string) "Zed"%string "zed@example.com"%string
         (midnightUTC 1991 6 2) male None
         (midnightUTC 2024 1 4) (midnightUTC 2024 2 4).

End StoreVocabulary.

(** The contract of a call on given arguments, by computation. *)
Ltac contract_by_computation :=
  unfold followsContract; simpl;
  split; [eexists; repeat split; reflexivity | repeat split; reflexivity].

Section QueryVocabulary.
Import JsString JsArray useFilteredUsers.

(** The computation [c], run on a reference to an array with the contents
    [l], answers a reference to an array with the contents [f l], in a
    store that keeps every array of the store it started from. *)
Definition runsAs {A} (c : ref -> M (A:=A) ref) (f : list A -> list A) : Prop :=
  forall (a : ref) (h : store A) (l : list A),
    h !! a = Some l ->
    exists r h', c a h = Some (r, h') /\ h' !! r = Some (f l) /\ h ⊆ h'.

(** The predicate a stage filters by; the constant [true] when its
    criterion is at the no-filter value. *)
Definition stagePredicate (rt : Runtime) (fc : FilterCriteria)
    (st : Stage) (user : User) : bool :=
  match st with
  | StageGender =>
      match genderFilter fc with
      | GenderAll => true
      | GenderIs g => genderStage g user
      end
  | StagePicture =>
      match profilePictureFilter fc with
      | PictureAll => true
      | f => pictureStage f user
      end
  | StageDateOfBirth =>
      if JsString.truthy (dateOfBirthFilter fc)
      then dateStage rt (dateOfBirthFilter fc) dateOfBirth user else true
  | StageCreatedAt =>
      if JsString.truthy (createdAtFilter fc)
      then dateStage rt (createdAtFilter fc) createdAt user else true
  | StageUpdatedAt =>
      if JsString.truthy (updatedAtFilter fc)
      then dateStage rt (updatedAtFilter fc) updatedAt user else true
  end.

(** Criteria that keep the women with a picture, and a sort by name. *)
Definition sampleCriteria : FilterCriteria :=
  mkFilterCriteria (GenderIs female) PictureWith EmptyString EmptyString EmptyString.
Definition byNameAscending : SortCriteria := mkSortCriteria KeyName asc.

(** The elements of the class [first] come before all the others. *)
Definition classesInOrder {A} (first : A -> bool) (l : list A) : Prop :=
  exists l1 l2, l = l1 ++ l2
                /\ List.Forall (fun x => first x = true) l1
                /\ List.Forall (fun x => first x = false) l2.

(** The record's picture is absent (undefined) or the empty string. *)
Definition pictureMissing (u : User) : bool :=
  match profilePicture u with
  | None => true
  | Some EmptyString => true
  | Some (String _ _) => false
  end.

(** Sorting by profilePicture, in the direction [o]. *)
Definition byPicture (o : SortOrder) : SortCriteria :=
  mkSortCriteria KeyProfilePicture o.

(** A record whose picture is a single space. *)
Definition blankPictureUser : User :=
  mkUser (Some "c"%string) "Cy"%string "cy@example.com"%string
         (midnightUTC 1999 12 31) male (Some " "%string)
         (midnightUTC 2024 1 3) (midnightUTC 2024 1 3).

(** The instants of the scenario, as time values. *)
Definition startOf_2000_01_01 : Z := 946684800000.  (* 2000-01-01T00:00:00Z *)
Definition t_2000_01_01_000001 : Z := 946684801000. (* 2000-01-01T00:00:01Z *)
Definition t_2000_01_01_235959 : Z := 946771199000. (* 2000-01-01T23:59:59Z *)
Definition t_2000_01_02_000001 : Z := 946771201000. (* 2000-01-02T00:00:01Z *)

(** The record passes the four stages other than the date-of-birth one. *)
Definition passesOtherStages (rt : Runtime) (fc : FilterCriteria) (u : User) : bool :=
  stagePredicate rt fc StageGender u && stagePredicate rt fc StagePicture u
  && stagePredicate rt fc StageCreatedAt u && stagePredicate rt fc StageUpdatedAt u.

(** Only the date-of-birth filter is set, to the date [d]. *)
Definition onlyDateOfBirth (d : string) : FilterCriteria :=
  mkFilterCriteria GenderAll PictureAll d EmptyString EmptyString.

(** A record with the id [ident] born at the instant [tv]. *)
Definition bornAt (ident : string) (tv : Z) : User :=
  mkUser (Some ident) "Dee"%string "dee@example.com"%string
         (TimeValue tv) female None (midnightUTC 2024 1 1) (midnightUTC 2024 1 1).

End QueryVocabulary.

(** ** Vocabulary of further statements on the query engine *)

Section QueryOrderVocabulary.
Import JsString JsArray useFilteredUsers.

(** The record passes each of the five stages. *)
Definition passesAllStages (rt : Runtime) (fc : FilterCriteria) (u : User) : bool :=
  forallb (fun st => stagePredicate rt fc st u) sourceOrder.

(** The time value of the record's property [key], when the property is
    a valid date. *)
Definition timeAt (key : SortKey) (u : User) : option Z :=
  match field key u with
  | FDate (TimeValue tv) => Some tv
  | _ => None
  end.

(** The record's property [key], when it is a string. *)
Definition stringAt (key : SortKey) (u : User) : option string :=
  match field key u with
  | FString s => Some s
  | _ => None
  end.

(** [a] is not later than [b] under the date property [key]. *)
Definition notLater (key : SortKey) (a b : User) : Prop :=
  match timeAt key a, timeAt key b with
  | Some ta, Some tb => ta <= tb
  | _, _ => False
  end.

(** [a] does not collate after [b] under the string property [key]. *)
Definition notAfter (rt : Runtime) (key : SortKey) (a b : User) : Prop :=
  match stringAt key a, stringAt key b with
  | Some sa, Some sb => localeCompare rt sa sb <= 0
  | _, _ => False
  end.

(** The keys whose property is a string in every record. *)
Definition isStringKey (key : SortKey) : bool :=
  match key with
  | KeyName | KeyEmail | KeyGender => true
  | _ => false
  end.

(** A collation is consistent: of two strings one does not collate after
    the other, and not collating after is transitive. *)
Definition consistentCollation (rt : Runtime) : Prop :=
  (forall x y, localeCompare rt x y > 0 -> localeCompare rt y x <= 0)
  /\ (forall x y z, localeCompare rt x y <= 0 -> localeCompare rt y z <= 0 ->
                    localeCompare rt x z <= 0).

(** A record whose three dates are invalid and whose id is undefined. *)
Definition undatedUser (n : string) : User :=
  mkUser None n "x@example.com"%string InvalidDate male None InvalidDate InvalidDate.

End QueryOrderVocabulary.

(** ** Vocabulary of further statements on the store *)

Section StoreInvariantVocabulary.
Import useUsers.

(** The ids of the in-memory records, in the order of the list. *)
Definition ids (s : State) : list (option string) := List.map id (users s).

(** No filter is set. *)
Definition noFilter : useFilteredUsers.FilterCriteria :=
  useFilteredUsers.mkFilterCriteria useFilteredUsers.GenderAll
    useFilteredUsers.PictureAll EmptyString EmptyString EmptyString.

(** The store holding Ann and Bob, idle and without an error. *)
Definition annAndBob : State := mkState [ann; bob] false None.

End StoreInvariantVocabulary.

(** ** A reader of CSV text

    The usual reading of CSV text, by which the export is judged: fields
    are separated by commas and records by newlines; a field that opens
    with a double quote runs to the next double quote that is not
    doubled, a doubled one standing for one double quote.  The reader is
    not part of the application. *)

Section CsvReaderVocabulary.
Import CsvExport.

Inductive ReaderState : Type :=
| FieldStart  (* nothing of the field read yet *)
| Bare        (* inside a field that is not quoted *)
| Quoted      (* inside a quoted field *)
| QuoteSeen.  (* after a double quote inside a quoted field *)

(** [records] and [fields] are the records and the fields of the current
    record read so far, [cur] the characters of the current field. *)
Fixpoint readCsv (st : ReaderState) (records : list (list string))
    (fields : list string) (cur : string) (input : string)
    : option (list (list string)) :=
  match input with
  | EmptyString =>
      match st with
      | Quoted => None
      | _ => Some (records ++ [fields ++ [cur]])
      end
  | String c rest =>
      match st with
      | Quoted =>
          if Ascii.eqb c dquote then readCsv QuoteSeen records fields cur rest
          else readCsv Quoted records fields (String.append cur (String c EmptyString)) rest
      | _ =>
          if Ascii.eqb c comma then
            readCsv FieldStart records (fields ++ [cur]) EmptyString rest
          else if Ascii.eqb c newline then
            readCsv FieldStart (records ++ [fields ++ [cur]]) [] EmptyString rest
          else if Ascii.eqb c dquote then
            match st with
            | FieldStart => readCsv Quoted records fields EmptyString rest
            | QuoteSeen =>
                readCsv Quoted records fields (String.append cur quoteStr) rest
            | _ => None
            end
          else
            match st with
            | QuoteSeen => None
            | _ => readCsv Bare records fields
                     (String.append cur (String c EmptyString)) rest
            end
      end
  end.

(** Reading a whole text. *)
Definition readCsvText (input : string) : option (list (list string)) :=
  readCsv FieldStart [] [] EmptyString input.

(** The text ends here, or goes on with a comma or a newline. *)
Definition atFieldEnd (rest : string) : Prop :=
  rest = EmptyString
  \/ (exists r, rest = String comma r) \/ (exists r, rest = String newline r).

(** A table of values written as the exporter writes its rows. *)
Definition writeRow (vs : list string) : string :=
  JsString.join "," (List.map (fun v => escapeCsvValue (VString v)) vs).
Definition writeRows (rows : list (list string)) : string :=
  JsString.join (String newline EmptyString) (List.map writeRow rows).

End CsvReaderVocabulary.

(** ** Vocabulary of further statements on dates *)

Section DateVocabulary.

(** The date is valid and falls on the local calendar day of the
    instant [f]. *)
Definition onLocalDayOf (rt : Runtime) (f : Z) (d : Date) : Prop :=
  exists tv, d = TimeValue tv
             /\ Day (LocalTime (LocalTZA rt) tv) = Day (LocalTime (LocalTZA rt) f).

(** The midnight UTC that begins the UTC day of a time value. *)
Definition startOfUtcDay (tv : Z) : Z := Day tv * msPerDay.

(** Noon UTC of 31 December 1999. *)
Definition t_1999_12_31_120000 : Z := 946641600000.

(** A runtime five hours behind UTC. *)
Definition utcMinus5Runtime : Runtime :=
  mkRuntime (fun _ => - (5 * 3600000)) (fun _ => InvalidDate) codeUnitCompare.

End DateVocabulary.

(** ** Vocabulary of the statements on ages *)

Section AgeVocabulary.

(** The calendar date [(y1, m1, d1)] is not after [(y2, m2, d2)]. *)
Definition dateNotAfter (y1 m1 d1 y2 m2 d2 : Z) : Prop :=
  y1 < y2 \/ (y1 = y2 /\ (m1 < m2 \/ (m1 = m2 /\ d1 <= d2))).

(** The anniversary number [k] of the date of birth [b] has come at the
    moment [now]: in local time, the calendar date of [now] is not before
    the month and day of [b] in the year of [b] plus [k]. *)
Definition anniversaryReached (rt : Runtime) (now b k : Z) : Prop :=
  dateNotAfter (UserModel.getFullYear rt b + k) (UserModel.getMonth rt b)
               (UserModel.getDate rt b)
               (UserModel.getFullYear rt now) (UserModel.getMonth rt now)
               (UserModel.getDate rt now).



(** The local time of an instant. *)
Definition localTimeOf (rt : Runtime) (t : Z) : Z := LocalTime (LocalTZA rt) t.

End AgeVocabulary.

(** ** The runtime model on known values *)

Section RuntimeExamples.
Import JsString JsArray useFilteredUsers.

Example trim_both_ends : trim "  a b  " = "a b"%string.
Proof. reflexivity. Qed.

Example trim_blank : trim "   " = EmptyString.
Proof. reflexivity. Qed.

Example toISOString_epoch :
  toISOString (TimeValue 0) = Some "1970-01-01T00:00:00.000Z"%string.
Proof. reflexivity. Qed.

Example toISOString_leap_day :
  toISOString (TimeValue 951827696789) = Some "2000-02-29T12:34:56.789Z"%string.
Proof. reflexivity. Qed.

Example toISOString_before_year_0 :
  toISOString (TimeValue (-62167219200001)) = Some "-000001-12-31T23:59:59.999Z"%string.
Proof. reflexivity. Qed.

Example toDateString_utc :
  toDateString (fun _ => 0) (TimeValue t_2000_01_01_235959) = "Sat Jan 01 2000"%string.
Proof. reflexivity. Qed.

Example toDateString_west :
  toDateString (fun _ => -5 * 3600000) (TimeValue t_2000_01_01_000001)
  = "Fri Dec 31 1999"%string.
Proof. reflexivity. Qed.

Example parse_date_only : parseDateOnly "2000-01-01" = Some startOf_2000_01_01.
Proof. reflexivity. Qed.

Example parse_no_such_day : parseDateOnly "2001-02-29" = None.
Proof. reflexivity. Qed.

Example sort_is_stable :
  sort (fun a b : Z * Z => fst a - fst b) [(2, 1); (1, 1); (2, 2); (1, 2); (0, 1)]
  = [(0, 1); (1, 1); (1, 2); (2, 1); (2, 2)].
Proof. reflexivity. Qed.

(** The scenario of the two records: the picture filter keeps Ann, and
    the sort by name puts Ann first. *)
Example scenario_with_picture :
  view utcRuntime (mkFilterCriteria GenderAll PictureWith EmptyString EmptyString EmptyString)
       byNameAscending [bob; ann] = [ann].
Proof. reflexivity. Qed.

Example scenario_by_name :
  view utcRuntime (mkFilterCriteria GenderAll PictureAll EmptyString EmptyString EmptyString)
       byNameAscending [bob; ann] = [ann; bob].
Proof. reflexivity. Qed.

End RuntimeExamples.

(** ** Lemmas on strings *)

Section StringLemmas.
Import JsString.

Lemma includes_contains (c : ascii) (s : string) :
  includes c s = true <-> Props.contains c s.
Proof.
  unfold Props.contains. induction s as [|d s IH]; simpl.
  - split; [discriminate | tauto].
  - destruct (Ascii.eqb d c) eqn:E.
    + apply Ascii.eqb_eq in E. tauto.
    + apply Ascii.eqb_neq in E. rewrite IH. split; [tauto | intros [?|?]; [contradiction|assumption]].
Qed.

Lemma all_append (p : ascii -> bool) (s t : string) :
  all p (String.append s t) = (all p s && all p t)%bool.
Proof.
  induction s as [|c s IH]; simpl; [reflexivity|].
  rewrite IH. apply andb_assoc.
Qed.

Lemma all_includes (p : ascii -> bool) (c : ascii) (s : string) :
  all p s = true -> p c = false -> includes c s = false.
Proof.
  intros Hall Hc. induction s as [|d s IH]; simpl in *; [reflexivity|].
  apply andb_prop in Hall as [Hd Hs].
  destruct (Ascii.eqb d c) eqn:E.
  - apply Ascii.eqb_eq in E. congruence.
  - auto.
Qed.

Lemma splitHead_append (c : ascii) (s t : string) :
  includes c s = false ->
  splitHead c (String.append s (String c t)) = s.
Proof.
  induction s as [|d s IH]; simpl; intros H.
  - now rewrite Ascii.eqb_refl.
  - destruct (Ascii.eqb d c); [discriminate|]. now rewrite IH.
Qed.

Lemma splitHead_absent (c : ascii) (s : string) :
  includes c s = false -> splitHead c s = s.
Proof.
  induction s as [|d s IH]; simpl; intros H; [reflexivity|].
  destruct (Ascii.eqb d c); [discriminate|]. now rewrite IH.
Qed.

Lemma length_append (s t : string) :
  String.length (String.append s t) = (String.length s + String.length t)%nat.
Proof. induction s; simpl; auto. Qed.

Lemma replaceAll_length (c : ascii) (s : string) :
  (String.length s <=
   String.length (replaceAll c (String c (String c EmptyString)) s))%nat.
Proof.
  induction s as [|d s IH]; simpl; [lia|].
  destruct (Ascii.eqb d c); simpl; lia.
Qed.
End StringLemmas.

(** ** The CSV exporter: escaping and header *)

Section CsvTheorems.
Import JsString CsvExport Props.

Lemma needsQuoting_hasSpecial (s : string) :
  needsQuoting s = true <-> hasSpecial s.
Proof.
  unfold needsQuoting, hasSpecial.
  rewrite !orb_true_iff, !includes_contains. tauto.
Qed.

Lemma quoted_longer (s : string) :
  (String.length s + 2 <= String.length (quoted s))%nat.
Proof.
  unfold quoted, quoteStr. rewrite !length_append. simpl.
  pose proof (replaceAll_length dquote s). lia.
Qed.

Lemma quoted_differs (s : string) : quoted s <> s.
Proof.
  intros E. pose proof (quoted_longer s) as H. rewrite E in H. lia.
Qed.

(** C4. A value is serialized into a cell as follows: null and undefined
    give the empty cell; a string gives the string wrapped in double
    quotes with every double quote inside doubled exactly when it holds a
    comma, a double quote or a newline, and the bare string exactly when
    it holds none.  The name of the scenario gives the cell of the
    scenario, and that cell opens the row of any record with this
    name. *)
Theorem escapeCsvValue_quotes_iff_special :
  escapeCsvValue VNull = EmptyString
  /\ escapeCsvValue VUndefined = EmptyString
  /\ (forall s : string,
        (hasSpecial s <-> escapeCsvValue (VString s) = quoted s)
        /\ (~ hasSpecial s <-> escapeCsvValue (VString s) = s))
  /\ escapeCsvValue (VString obrienName) = obrienCell
  /\ (forall i e d g p c m,
        exists rest : string,
          row (mkUser i obrienName e d g p c m)
          = String.append obrienCell (String comma rest)).
Proof.
  split; [reflexivity|]. split; [reflexivity|]. split; [|split].
  - intros s. simpl. destruct (needsQuoting s) eqn:E.
    + assert (hasSpecial s) by now apply needsQuoting_hasSpecial.
      split; split; try tauto.
      intros Hq. exfalso. exact (quoted_differs s Hq).
    + assert (~ hasSpecial s).
      { intros H. apply needsQuoting_hasSpecial in H. congruence. }
      split; split; try tauto.
      intros Hq. exfalso. exact (quoted_differs s (eq_sym Hq)).
  - reflexivity.
  - intros i e d g p c m. unfold row, cells, values. simpl List.map.
    change (escapeCsvValue (VString obrienName)) with obrienCell.
    cbv beta. eexists. simpl join. reflexivity.
Qed.

Lemma headerRow_literal : headerRow = headerLine.
Proof. reflexivity. Qed.

(** C9. The export of the empty list is the header line, with nothing
    after it; and the first line of every export is that header line,
    the columns in the order Name, Email, Date of Birth, Gender, Profile
    Picture, Created At, Updated At, ID: the export is the header line
    alone or the header line, a newline and the rows. *)
Theorem usersToCSV_header_first :
  headerLine
  = "Name,Email,Date of Birth,Gender,Profile Picture,Created At,Updated At,ID"%string
  /\ usersToCSV [] = headerLine
  /\ (forall users : list User,
        splitHead newline (usersToCSV users) = headerLine
        /\ (usersToCSV users = headerLine
             \/ exists rows : string,
                  usersToCSV users
                  = String.append headerLine (String newline rows))).
Proof.
  split; [reflexivity|]. split; [reflexivity|].
  intros users. unfold usersToCSV. rewrite headerRow_literal.
  destruct (List.map row users) as [|r rs].
  - split; [reflexivity | left; reflexivity].
  - change (join (String newline EmptyString) (headerLine :: r :: rs))
      with (String.append headerLine
              (String newline (join (String newline EmptyString) (r :: rs)))).
    split.
    + apply splitHead_append. reflexivity.
    + right. eexists. reflexivity.
Qed.
End CsvTheorems.

(** ** The CSV exporter: date cells *)

Section DateCells.
Import JsString CsvExport Props.

Lemma digitChar_isDigit (d : Z) : 0 <= d < 10 -> isDigit (digitChar d) = true.
Proof.
  intros H.
  assert (E : d = 0 \/ d = 1 \/ d = 2 \/ d = 3 \/ d = 4 \/ d = 5 \/ d = 6
              \/ d = 7 \/ d = 8 \/ d = 9) by lia.
  repeat (destruct E as [E|E]; [subst d; reflexivity|]). subst d; reflexivity.
Qed.

Lemma isDigit_isDateChar (c : ascii) : isDigit c = true -> isDateChar c = true.
Proof. unfold isDateChar. intros ->. reflexivity. Qed.

Lemma all_weaken (p q : ascii -> bool) (s : string) :
  (forall c, p c = true -> q c = true) -> all p s = true -> all q s = true.
Proof.
  intros Hpq. induction s as [|c s IH]; simpl; [reflexivity|].
  intros H. apply andb_prop in H as [Hc Hs].
  rewrite (Hpq c Hc), (IH Hs). reflexivity.
Qed.

Lemma padDec_digits (w : nat) (n : Z) : all isDigit (padDec w n) = true.
Proof.
  revert n. induction w as [|w IH]; intros n; cbn [padDec]; [reflexivity|].
  rewrite all_append, IH. cbn [all andb].
  rewrite digitChar_isDigit; [reflexivity|]. apply Z.mod_pos_bound. lia.
Qed.

Lemma padDec_dateChars (w : nat) (n : Z) : all isDateChar (padDec w n) = true.
Proof. apply (all_weaken isDigit); [apply isDigit_isDateChar | apply padDec_digits]. Qed.

Lemma isoYear_dateChars (y : Z) : all isDateChar (isoYear y) = true.
Proof.
  unfold isoYear, ToZeroPaddedDecimalString.
  destruct ((0 <=? y) && (y <=? 9999)); [apply padDec_dateChars|].
  rewrite all_append, padDec_dateChars. destruct (0 <=? y); reflexivity.
Qed.

Lemma isoDate_dateChars (tv : Z) : all isDateChar (isoDate tv) = true.
Proof.
  unfold isoDate. cbn [String.concat].
  rewrite !all_append, isoYear_dateChars, !padDec_dateChars. reflexivity.
Qed.

Lemma truthy_append_char (s t : string) (c : ascii) :
  truthy (String.append s (String c t)) = true.
Proof. destruct s; reflexivity. Qed.

Lemma isoDate_truthy (tv : Z) : truthy (isoDate tv) = true.
Proof. unfold isoDate. cbn [String.concat]. apply truthy_append_char. Qed.


Lemma formatDate_invalid : formatDate InvalidDate = EmptyString.
Proof. reflexivity. Qed.


Lemma isoDate_fourDigitYear (tv : Z) :
  0 <= YearFromTime tv <= 9999 -> isoDate tv = utcCalendarDate tv.
Proof.
  intros [H0 H1]. unfold isoDate, utcCalendarDate, isoYear.
  apply Z.leb_le in H0, H1. rewrite H0, H1. reflexivity.
Qed.

Lemma utcCalendarDate_form (tv : Z) : isYYYYMMDD (utcCalendarDate tv) = true.
Proof.
  unfold utcCalendarDate.
  generalize (YearFromTime tv), (MonthFromTime tv + 1), (DateFromTime tv).
  intros y m d. cbn [padDec String.append isYYYYMMDD].
  rewrite !digitChar_isDigit; try (apply Z.mod_pos_bound; lia). reflexivity.
Qed.


Lemma dateCell_form (d : Date) :
  dateCell d = EmptyString \/ isYYYYMMDD (dateCell d) = true.
Proof. destruct d; [right; apply utcCalendarDate_form | left; reflexivity]. Qed.

End DateCells.

Section DateCellTheorems.
Import JsString CsvExport Props.



(** Beyond the four-digit years: the Created At cell of a record created
    in the UTC year 10000, a date no timestamp of the remote store
    converts to, would be the expanded-year form of the ISO string. *)
Lemma usersToCSV_date_cell_year_10000 :
  YearFromTime 253402300800000 = 10000
  /\ nth 5 (cells farFutureUser) EmptyString = "+010000-01-01"%string
  /\ isYYYYMMDD (nth 5 (cells farFutureUser) EmptyString) = false.
Proof. vm_compute. repeat split. Qed.

End DateCellTheorems.

(** ** The collection store *)

Section StoreLemmas.
Import useUsers.

Lemma optionStringEqb_eq (x y : option string) :
  optionStringEqb x y = true <-> x = y.
Proof.
  destruct x as [a|], y as [b|]; simpl; try (split; congruence).
  rewrite String.eqb_eq. split; congruence.
Qed.

Lemma optionStringEqb_neq (x y : option string) :
  optionStringEqb x y = false <-> x <> y.
Proof.
  rewrite <- optionStringEqb_eq. destruct (optionStringEqb x y); split; congruence.
Qed.

Lemma findIndex_None {A} (p : A -> bool) (l : list A) :
  findIndex p l = None <-> Forall (fun x => p x = false) l.
Proof.
  induction l as [|x l IH]; simpl.
  - split; [constructor | reflexivity].
  - destruct (p x) eqn:E.
    + split; [discriminate|]. intros H. inversion H; congruence.
    + destruct (findIndex p l); simpl.
      * split; [discriminate|]. intros H. inversion H; subst.
        apply IH in H3. discriminate.
      * split; [|reflexivity]. intros _. constructor; [assumption|]. now apply IH.
Qed.

(** [findIndex] answers the first index whose element satisfies [p]. *)
Lemma findIndex_first {A} (p : A -> bool) (l : list A) (i : nat) (x : A) :
  l !! i = Some x -> p x = true ->
  (forall j y, (j < i)%nat -> l !! j = Some y -> p y = false) ->
  findIndex p l = Some i.
Proof.
  revert i. induction l as [|z l IH]; intros i Hi Hx Hfirst; [discriminate|].
  destruct i as [|i]; simpl in *.
  - injection Hi as ->. now rewrite Hx.
  - rewrite (Hfirst O z) by (lia || reflexivity).
    rewrite (IH i Hi Hx); [reflexivity|].
    intros j y Hj Hy. apply (Hfirst (S j) y); [lia | exact Hy].
Qed.

Lemma findIndex_Some_lt {A} (p : A -> bool) (l : list A) (i : nat) :
  findIndex p l = Some i -> (i < length l)%nat.
Proof.
  revert i. induction l as [|z l IH]; intros i; simpl; [discriminate|].
  destruct (p z); [intros [= <-]; lia|].
  destruct (findIndex p l) as [k|]; simpl; [|discriminate].
  intros [= <-]. specialize (IH k eq_refl). lia.
Qed.

Lemma removeById_twice (id' : string) (l : list User) :
  removeById id' (removeById id' l) = removeById id' l.
Proof.
  unfold removeById. induction l as [|u l IH]; simpl; [reflexivity|].
  destruct (negb (optionStringEqb (id u) (Some id'))) eqn:E; simpl.
  - rewrite E, IH. reflexivity.
  - exact IH.
Qed.

Lemma removeById_absent (id' : string) (l : list User) :
  removeById id' l = l <-> Forall (fun u => id u <> Some id') l.
Proof.
  unfold removeById. induction l as [|u l IH]; simpl.
  - split; [constructor | reflexivity].
  - destruct (optionStringEqb (id u) (Some id')) eqn:E; simpl.
    + apply optionStringEqb_eq in E. split.
      * intros H.
        pose proof (filter_length_le
                      (fun user => negb (optionStringEqb (id user) (Some id'))) l) as Hl.
        rewrite H in Hl. simpl in Hl. lia.
      * intros H. inversion H; contradiction.
    + apply optionStringEqb_neq in E. split.
      * intros [= H]. constructor; [assumption | now apply IH].
      * intros H. inversion H; subst. f_equal. now apply IH.
Qed.

Lemma removeById_removed (id' : string) (l : list User) :
  Forall (fun u => id u <> Some id') (removeById id' l).
Proof. apply removeById_absent, removeById_twice. Qed.

End StoreLemmas.

Section StoreTheorems.
Import useUsers.

(** C3. Each operation of the store that runs through the wrapper follows
    the wrapper contract, from every state (whatever the busy flag and the
    error were) and whether the remote store resolves or rejects: fetchAll
    and delete with the sentinel false, create, update and the remote
    branch of getById with the sentinel null.  The message left by a
    failure is the message of the thrown Error, and a fixed text for any
    other thrown value.  getById takes the remote branch exactly when no
    in-memory record has the id; otherwise it returns the record and
    touches nothing. *)
Theorem withLoadingAndError_contract (s : State) :
  (forall remote, followsContract remote s (fetchUsers remote s) false (fun _ => true))
  /\ (forall remote, followsContract remote s (createUser remote s) None Some)
  /\ (forall remote, followsContract remote s (updateUser remote s) None Some)
  /\ (forall id' remote,
        followsContract remote s (deleteUser id' remote s) false (fun _ => true))
  /\ (forall id' remote,
        match find (fun user => optionStringEqb (id user) (Some id')) (users s) with
        | None => followsContract remote s (getUserById id' remote s) None (fun found => found)
        | Some localUser =>
            getUserById id' remote s = mkRun [] (Some localUser) s
        end)
  /\ errorMessageOf ThrownOther = "An unexpected error occurred"%string
  /\ (forall message, errorMessageOf (ThrownError message) = message).
Proof.
  split; [|split; [|split; [|split; [|split; [|split]]]]].
  - intros [v|err]; contract_by_computation.
  - intros [v|err]; contract_by_computation.
  - intros [v|err]; [|contract_by_computation].
    unfold followsContract, updateUser, withLoadingAndError, await.
    cbn [setError setLoading users loading error].
    destruct (findIndex _ (users s)); contract_by_computation.
  - intros id' [v|err]; contract_by_computation.
  - intros id' remote. unfold getUserById.
    destruct (find _ (users s)) as [localUser|]; [reflexivity|].
    destruct remote as [v|err]; contract_by_computation.
  - reflexivity.
  - reflexivity.
Qed.

Lemma updateUser_resolved (updatedUser : User) (s : State) :
  let r := updateUser (Resolved updatedUser) s in
  returned r = Some updatedUser
  /\ error (final r) = None
  /\ loading (final r) = false
  /\ users (final r)
     = match findIndex (fun user => optionStringEqb (id user) (id updatedUser))
                       (users s) with
       | Some i => <[i := updatedUser]> (users s)
       | None => users s
       end.
Proof.
  cbv zeta. unfold updateUser, withLoadingAndError, await.
  cbn [setError setLoading users].
  destruct (findIndex _ (users s)); repeat split; reflexivity.
Qed.

(** C7. An update whose remote write resolves with the record
    [updatedUser] returns that record, leaves no error and keeps the length
    of the in-memory list.  When no in-memory record has the returned id
    the list is unchanged; when the first record with the returned id is
    at position [i], the list is the old list with position [i] replaced
    by the returned record, every other position keeping its element. *)
Theorem updateUser_replaces_in_place (updatedUser : User) (s : State) :
  let r := updateUser (Resolved updatedUser) s in
  returned r = Some updatedUser
  /\ error (final r) = None
  /\ loading (final r) = false
  /\ length (users (final r)) = length (users s)
  /\ (Forall (fun u => id u <> id updatedUser) (users s) ->
      users (final r) = users s)
  /\ (forall (i : nat) (old : User),
        users s !! i = Some old ->
        id old = id updatedUser ->
        (forall j u, (j < i)%nat -> users s !! j = Some u -> id u <> id updatedUser) ->
        users (final r) = <[i := updatedUser]> (users s)
        /\ users (final r) !! i = Some updatedUser
        /\ (forall j, j <> i -> users (final r) !! j = users s !! j)).
Proof.
  cbv zeta.
  set (p := fun user : User => optionStringEqb (id user) (id updatedUser)).
  destruct (updateUser_resolved updatedUser s) as (Hret & Herr & Hload & Husers).
  fold p in Husers. rewrite Hret, Herr, Hload, Husers.
  split; [reflexivity|]. split; [reflexivity|]. split; [reflexivity|].
  split; [|split].
  - destruct (findIndex p (users s)); [apply length_insert | reflexivity].
  - intros Habsent.
    assert (E : findIndex p (users s) = None).
    { apply findIndex_None. eapply Forall_impl; [exact Habsent|].
      intros u Hu. now apply optionStringEqb_neq. }
    rewrite E. reflexivity.
  - intros i old Hold Hid Hfirst.
    assert (E : findIndex p (users s) = Some i).
    { apply (findIndex_first p _ i old); [assumption | now apply optionStringEqb_eq |].
      intros j u Hj Hu. apply optionStringEqb_neq. eauto. }
    rewrite E. split; [reflexivity|]. split.
    + apply list_lookup_insert_eq. now apply lookup_lt_Some in Hold.
    + intros j Hj. apply list_lookup_insert_ne. congruence.
Qed.

Lemma updateUser_replaces_in_place_witness :
  users (final (updateUser (Resolved stranger) (mkState [ann; bob] false None)))
  = [ann; bob]
  /\ users (final (updateUser (Resolved bobRenamed) (mkState [ann; bob] false None)))
     = [ann; bobRenamed].
Proof.
  split.
  - destruct (updateUser_replaces_in_place stranger (mkState [ann; bob] false None))
      as (_ & _ & _ & _ & H & _).
    apply H. repeat constructor; discriminate.
  - destruct (updateUser_replaces_in_place bobRenamed (mkState [ann; bob] false None))
      as (_ & _ & _ & _ & _ & H).
    destruct (H 1%nat bob) as (E & _).
    + reflexivity.
    + reflexivity.
    + intros [|j] u' Hj Hu'; [|lia]. injection Hu' as <-. discriminate.
    + exact E.
Defined.

(** C8. Removing an id from the in-memory list twice is removing it once;
    the removal changes nothing exactly when no record has the id, and
    after it no record has the id.  Two deletes of the same id in
    succession, the remote store accepting both: each returns true, and
    the second leaves the list (so its length) as the first left it, with
    no error. *)
Theorem deleteUser_idempotent (id' : string) (s : State) :
  let r1 := deleteUser id' (Resolved tt) s in
  let r2 := deleteUser id' (Resolved tt) (final r1) in
  removeById id' (removeById id' (users s)) = removeById id' (users s)
  /\ (removeById id' (users s) = users s
      <-> Forall (fun u => id u <> Some id') (users s))
  /\ users (final r1) = removeById id' (users s)
  /\ Forall (fun u => id u <> Some id') (users (final r1))
  /\ returned r1 = true
  /\ returned r2 = true
  /\ users (final r2) = users (final r1)
  /\ length (users (final r2)) = length (users (final r1))
  /\ error (final r2) = None.
Proof.
  cbv zeta. simpl.
  split; [apply removeById_twice|].
  split; [apply removeById_absent|].
  split; [reflexivity|].
  split; [apply removeById_removed|].
  split; [reflexivity|]. split; [reflexivity|].
  rewrite removeById_twice. repeat split.
Qed.

End StoreTheorems.

(** ** The query engine: array objects *)

Section ArrayObjects.
Import JsArray.

Lemma alloc_fresh {A} (l : list A) (h : store A) :
  exists r, alloc l h = Some (r, <[r := l]> h) /\ h !! r = None.
Proof.
  unfold alloc. eexists. split; [reflexivity|].
  apply (not_elem_of_dom (D := gset nat)), is_fresh.
Qed.

Lemma runsAs_ret {A} : runsAs (A:=A) ret (fun l => l).
Proof. intros a h l H. exists a, h. repeat split; [assumption | reflexivity]. Qed.

Lemma runsAs_filter {A} (p : A -> bool) : runsAs (JsArray.filter p) (List.filter p).
Proof.
  intros a h l H. unfold JsArray.filter, bind, read. rewrite H.
  destruct (alloc_fresh (List.filter p l) h) as (r & -> & Hr).
  exists r, (<[r := List.filter p l]> h). repeat split.
  - apply lookup_insert_eq.
  - now apply insert_subseteq.
Qed.

Lemma runsAs_bind {A} (c1 c2 : ref -> M (A:=A) ref) (f1 f2 : list A -> list A) :
  runsAs c1 f1 -> runsAs c2 f2 ->
  runsAs (fun a => bind (c1 a) c2) (fun l => f2 (f1 l)).
Proof.
  intros H1 H2 a h l H. unfold bind.
  destruct (H1 a h l H) as (r1 & h1 & -> & Hr1 & Hsub1).
  destruct (H2 r1 h1 (f1 l) Hr1) as (r2 & h2 & -> & Hr2 & Hsub2).
  exists r2, h2. repeat split; [assumption|]. now transitivity h1.
Qed.

(** [[...arr].sort(compareFn)]: a new array, sorted; the array [arr] and
    every other array of the store keep their contents. *)
Lemma spread_sort_fresh {A} (compareFn : A -> A -> Z) (a : ref) (h : store A) (l : list A) :
  h !! a = Some l ->
  exists r, bind (spread a) (sortInPlace compareFn) h
            = Some (r, <[r := sort compareFn l]> h)
            /\ h !! r = None.
Proof.
  intros H. unfold spread, sortInPlace, bind, read, write, ret. rewrite H.
  destruct (alloc_fresh l h) as (r & -> & Hr).
  exists r. rewrite lookup_insert_eq. cbn beta iota.
  rewrite lookup_insert_eq, insert_insert_eq. split; [reflexivity | assumption].
Qed.

End ArrayObjects.

(** ** The query engine: the filter stages *)

Section FilterStages.
Import JsArray useFilteredUsers.
Variable rt : Runtime.
Variable fc : FilterCriteria.
Variable sc : SortCriteria.

Lemma filter_all {A} (l : list A) : List.filter (fun _ => true) l = l.
Proof. induction l; simpl; congruence. Qed.

Lemma filter_twice {A} (p q : A -> bool) (l : list A) :
  List.filter q (List.filter p l) = List.filter (fun x => p x && q x) l.
Proof.
  induction l as [|x l IH]; simpl; [reflexivity|].
  destruct (p x); simpl; [destruct (q x)|]; now rewrite IH.
Qed.

Lemma applyStage_filter (st : Stage) (l : list User) :
  applyStage rt fc st l = List.filter (stagePredicate rt fc st) l.
Proof.
  destruct st; unfold applyStage, stagePredicate, applyGender, applyPicture, applyDate.
  - destruct (genderFilter fc); cbn beta iota; now rewrite ?filter_all.
  - destruct (profilePictureFilter fc); cbn beta iota; now rewrite ?filter_all.
  - destruct (JsString.truthy _); cbn beta iota; now rewrite ?filter_all.
  - destruct (JsString.truthy _); cbn beta iota; now rewrite ?filter_all.
  - destruct (JsString.truthy _); cbn beta iota; now rewrite ?filter_all.
Qed.

(** The records a sequence of stages keeps are those every stage of the
    sequence keeps. *)
Lemma applyStages_filter (order : list Stage) (l : list User) :
  applyStages rt fc order l
  = List.filter (fun u => forallb (fun st => stagePredicate rt fc st u) order) l.
Proof.
  unfold applyStages. revert l.
  induction order as [|st order IH]; intros l; simpl.
  - now rewrite filter_all.
  - rewrite IH, applyStage_filter. apply filter_twice.
Qed.

Lemma forallb_Permutation {A} (p : A -> bool) (l l' : list A) :
  Permutation l l' -> forallb p l = forallb p l'.
Proof.
  induction 1; simpl; try congruence.
  destruct (p x), (p y); reflexivity.
Qed.

Lemma applyFilters_sourceOrder (l : list User) :
  applyFilters rt fc l = applyStages rt fc sourceOrder l.
Proof. reflexivity. Qed.

Lemma applyStages_Permutation (order order' : list Stage) (l : list User) :
  Permutation order order' ->
  applyStages rt fc order l = applyStages rt fc order' l.
Proof.
  intros H. rewrite !applyStages_filter. apply filter_ext.
  intros u. now apply forallb_Permutation.
Qed.

(** The five stages of [filteredUsers], on array objects, run as
    [applyFilters] on the contents. *)
Lemma genderFilter_runs :
  runsAs (fun result => match genderFilter fc with
                        | GenderAll => ret result
                        | GenderIs g => JsArray.filter (genderStage g) result
                        end)
         (applyGender fc).
Proof.
  unfold applyGender. destruct (genderFilter fc); [apply runsAs_ret | apply runsAs_filter].
Qed.

Lemma pictureFilter_runs :
  runsAs (fun result => match profilePictureFilter fc with
                        | PictureAll => ret result
                        | f => JsArray.filter (pictureStage f) result
                        end)
         (applyPicture fc).
Proof.
  unfold applyPicture.
  destruct (profilePictureFilter fc); (apply runsAs_ret || apply runsAs_filter).
Qed.

Lemma dateFilter_runs (filterValue : string) (get : User -> Date) :
  runsAs (dateFilter rt filterValue get) (applyDate rt filterValue get).
Proof.
  unfold dateFilter, applyDate.
  destruct (JsString.truthy filterValue); [apply runsAs_filter | apply runsAs_ret].
Qed.

(** The computed [filteredUsers] answers a new array holding the view and
    keeps every array of the store, the collection among them. *)
Lemma filteredUsers_runs (users : ref) (h : store User) (l : list User) :
  h !! users = Some l ->
  exists (result : ref) (h' : store User),
    filteredUsers rt fc sc users h = Some (result, h')
    /\ h' !! result = Some (view rt fc sc l)
    /\ h !! result = None
    /\ h ⊆ h'.
Proof.
  intros H. unfold filteredUsers, bind.
  destruct (genderFilter_runs users h l H) as (r1 & h1 & -> & H1 & S1).
  destruct (pictureFilter_runs r1 h1 _ H1) as (r2 & h2 & -> & H2 & S2).
  destruct (dateFilter_runs (dateOfBirthFilter fc) dateOfBirth r2 h2 _ H2)
    as (r3 & h3 & -> & H3 & S3).
  destruct (dateFilter_runs (createdAtFilter fc) createdAt r3 h3 _ H3)
    as (r4 & h4 & -> & H4 & S4).
  destruct (dateFilter_runs (updatedAtFilter fc) updatedAt r4 h4 _ H4)
    as (r5 & h5 & -> & H5 & S5).
  destruct (spread_sort_fresh (compareUsers rt sc) r5 h5 _ H5) as (r & E & Hr).
  unfold bind in E. rewrite E.
  assert (S : h ⊆ h5) by (do 4 (etransitivity; [eassumption|]); assumption).
  exists r, (<[r := view rt fc sc l]> h5). split; [reflexivity|]. split; [|split].
  - apply lookup_insert_eq.
  - destruct (h !! r) as [x|] eqn:Ex; [|reflexivity].
    apply (lookup_weaken _ _ _ _ Ex) in S. congruence.
  - etransitivity; [exact S|]. now apply insert_subseteq.
Qed.

End FilterStages.

(** ** Sample data *)

Section FilterTheorems.
Import JsArray useFilteredUsers.

(** C6. For a collection and filter criteria, the five filter stages
    applied in any order keep the same records, in the same order, as the
    stages in the order of the source; and the query engine, run on the
    array of the collection, answers a new array (a reference not in use
    before, so not the collection's) that holds the view, while the
    collection's array and every other array keep their contents. *)
Theorem filters_commute_source_untouched
    (rt : Runtime) (fc : FilterCriteria) (sc : SortCriteria)
    (order : list Stage) (users : ref) (h : store User) (l : list User) :
  Permutation order sourceOrder ->
  h !! users = Some l ->
  applyStages rt fc order l = applyFilters rt fc l
  /\ view rt fc sc l = sort (compareUsers rt sc) (applyStages rt fc order l)
  /\ exists (result : ref) (h' : store User),
       filteredUsers rt fc sc users h = Some (result, h')
       /\ h' !! result = Some (view rt fc sc l)
       /\ h' !! users = Some l
       /\ h !! result = None
       /\ result <> users
       /\ (forall a x, h !! a = Some x -> h' !! a = Some x).
Proof.
  intros Hperm Hl.
  assert (E : applyStages rt fc order l = applyFilters rt fc l).
  { rewrite applyFilters_sourceOrder. now apply applyStages_Permutation. }
  split; [exact E|]. split; [unfold view; now rewrite E|].
  destruct (filteredUsers_runs rt fc sc users h l Hl) as (r & h' & Hrun & Hr & Hfresh & Hsub).
  exists r, h'. repeat split; try assumption.
  - exact (lookup_weaken _ _ _ _ Hl Hsub).
  - intros ->. congruence.
  - intros a x Ha. exact (lookup_weaken _ _ _ _ Ha Hsub).
Qed.

Lemma filters_commute_source_untouched_witness :
  applyStages utcRuntime sampleCriteria (rev sourceOrder) [bob; ann] = [ann]
  /\ applyFilters utcRuntime sampleCriteria [bob; ann] = [ann]
  /\ exists (result : ref) (h' : store User),
       filteredUsers utcRuntime sampleCriteria byNameAscending 7%nat {[ 7%nat := [bob; ann] ]}
       = Some (result, h')
       /\ h' !! result = Some [ann]
       /\ h' !! 7%nat = Some [bob; ann]
       /\ result <> 7%nat.
Proof.
  destruct (filters_commute_source_untouched utcRuntime sampleCriteria byNameAscending
              (rev sourceOrder) 7%nat {[ 7%nat := [bob; ann] ]} [bob; ann])
    as (E1 & E2 & r & h' & Hrun & Hr & Hu & _ & Hne & _).
  - apply Permutation_sym, Permutation_rev.
  - reflexivity.
  - split; [rewrite E1; reflexivity|]. split; [reflexivity|].
    exists r, h'. repeat split; assumption.
Defined.

End FilterTheorems.

(** ** The query engine: sorting *)

Section SortLemmas.
Import JsArray.
Context {A : Type}.
Variable compareFn : A -> A -> Z.

Lemma insertSorted_Permutation (x : A) (l : list A) :
  Permutation (insertSorted compareFn x l) (x :: l).
Proof.
  induction l as [|y l IH]; simpl; [reflexivity|].
  destruct (compareFn x y <=? 0); [reflexivity|].
  rewrite IH. apply perm_swap.
Qed.

(** Sorting rearranges: the sorted array holds the elements it held. *)
Lemma sort_Permutation (l : list A) : Permutation (sort compareFn l) l.
Proof.
  induction l as [|x l IH]; simpl; [reflexivity|].
  unfold sort in IH. rewrite insertSorted_Permutation. now constructor.
Qed.

Lemma sort_In (x : A) (l : list A) : In x (sort compareFn l) <-> In x l.
Proof.
  split; apply Permutation_in; [|symmetry]; apply sort_Permutation.
Qed.

(** Two classes of elements, an element of the first never sorting after
    one of the second and an element of the second always sorting after
    one of the first: a list with the first class before the second stays
    so under insertion. *)
Variable first : A -> bool.
Hypothesis first_before : forall x y,
  first x = true -> first y = false -> compareFn x y <= 0.
Hypothesis second_after : forall x y,
  first x = false -> first y = true -> compareFn x y > 0.

Lemma insertSorted_second (x : A) (l : list A) :
  first x = false -> List.Forall (fun y => first y = false) l ->
  List.Forall (fun y => first y = false) (insertSorted compareFn x l).
Proof.
  intros Hx Hl. induction Hl as [|y l Hy Hl IH]; simpl.
  - constructor; [assumption | constructor].
  - destruct (compareFn x y <=? 0); repeat (constructor; try assumption).
Qed.

Lemma insertSorted_classes (x : A) (l : list A) :
  classesInOrder first l -> classesInOrder first (insertSorted compareFn x l).
Proof.
  intros (l1 & l2 & -> & H1 & H2).
  induction H1 as [|p l1 Hp H1 IH].
  - cbn [app]. destruct (first x) eqn:Hx.
    + exists [x], l2. split; [|split; [repeat constructor; assumption | assumption]].
      destruct H2 as [|m l2 Hm H2]; [reflexivity|]. simpl.
      pose proof (first_before x m Hx Hm) as Hle.
      apply Z.leb_le in Hle. now rewrite Hle.
    + exists [], (insertSorted compareFn x l2).
      split; [reflexivity|]. split; [constructor | now apply insertSorted_second].
  - cbn [app insertSorted]. destruct (compareFn x p <=? 0) eqn:Hc.
    + destruct (first x) eqn:Hx.
      * exists (x :: p :: l1), l2. split; [reflexivity|].
        split; [repeat (constructor; try assumption) | assumption].
      * pose proof (second_after x p Hx Hp). apply Z.leb_le in Hc. lia.
    + destruct IH as (l1' & l2' & E & H1' & H2').
      exists (p :: l1'), l2'. split; [cbn [app]; now rewrite E|].
      split; [constructor; assumption | assumption].
Qed.

Lemma sort_classes (l : list A) : classesInOrder first (sort compareFn l).
Proof.
  induction l as [|x l IH]; simpl.
  - exists [], []. repeat split; constructor.
  - now apply insertSorted_classes.
Qed.

End SortLemmas.

(** The sort is a sort.  For a consistent comparator (any two elements
    are comparable, and not sorting after is transitive) the result is in
    order; and a list already in order is left as it is, whatever the
    comparator: elements that compare equal keep their places. *)
Section SortModel.
Import JsArray.
Context {A : Type}.
Variable compareFn : A -> A -> Z.

Lemma sort_of_sorted (l : list A) :
  StronglySorted (fun x y => compareFn x y <= 0) l -> sort compareFn l = l.
Proof.
  induction 1 as [|x l Hl IH Hx]; [reflexivity|].
  change (sort compareFn (x :: l)) with (insertSorted compareFn x (sort compareFn l)).
  rewrite IH.
  destruct Hx as [|y l' Hy _]; simpl; [reflexivity|].
  apply Z.leb_le in Hy. now rewrite Hy.
Qed.

Hypothesis comparable : forall x y, compareFn x y > 0 -> compareFn y x <= 0.
Hypothesis transitive : forall x y z,
  compareFn x y <= 0 -> compareFn y z <= 0 -> compareFn x z <= 0.

Lemma insertSorted_sorted (x : A) (l : list A) :
  StronglySorted (fun x y => compareFn x y <= 0) l ->
  StronglySorted (fun x y => compareFn x y <= 0) (insertSorted compareFn x l).
Proof.
  induction 1 as [|y l Hl IH Hy]; simpl.
  - repeat constructor.
  - destruct (compareFn x y <=? 0) eqn:E.
    + apply Z.leb_le in E. constructor; [now constructor|].
      constructor; [exact E|].
      eapply List.Forall_impl; [|exact Hy]. intros z Hz. now apply (transitive x y z).
    + apply Z.leb_gt in E. constructor; [exact IH|].
      apply List.Forall_forall. intros z Hz.
      apply (Permutation_in _ (insertSorted_Permutation compareFn x l)) in Hz.
      destruct Hz as [<-|Hz]; [apply comparable; lia|].
      rewrite List.Forall_forall in Hy. now apply Hy.
Qed.

Lemma sort_sorted (l : list A) :
  StronglySorted (fun x y => compareFn x y <= 0) (sort compareFn l).
Proof.
  induction l as [|x l IH]; [constructor|].
  change (sort compareFn (x :: l)) with (insertSorted compareFn x (sort compareFn l)).
  now apply insertSorted_sorted.
Qed.

End SortModel.

(** ** The query engine: sorting by profile picture *)

Section PictureSort.
Import JsArray useFilteredUsers.

Lemma compareUsers_byPicture (rt : Runtime) (o : SortOrder) (a b : User) :
  compareUsers rt (byPicture o) a b
  = if pictureMissing a && pictureMissing b then 0
    else if pictureMissing a then match o with asc => 1 | desc => -1 end
    else if pictureMissing b then match o with asc => -1 | desc => 1 end
    else match o with
         | asc => localeCompare rt (JsString.orEmpty (profilePicture a))
                                   (JsString.orEmpty (profilePicture b))
         | desc => localeCompare rt (JsString.orEmpty (profilePicture b))
                                    (JsString.orEmpty (profilePicture a))
         end.
Proof.
  unfold compareUsers, pictureMissing. simpl.
  destruct (profilePicture a) as [[|ca sa]|], (profilePicture b) as [[|cb sb]|];
    reflexivity.
Qed.

(** C2. Sorting by profilePicture, for records [a] without a picture
    (absent or empty) and [b] with one: the comparator puts [a] after [b]
    ascending and before [b] descending, whichever is its first argument;
    the view of the two records, in either input order, is [b; a]
    ascending and [a; b] descending; in the view of any collection every
    record with a picture precedes every record without one ascending,
    and follows it descending.  Two records with pictures are compared by
    [localeCompare] of the pictures, the arguments swapped descending. *)
Theorem profilePicture_missing_after_present
    (rt : Runtime) (fc : FilterCriteria) (a b : User) :
  pictureMissing a = true ->
  pictureMissing b = false ->
  (compareUsers rt (byPicture asc) a b > 0
   /\ compareUsers rt (byPicture asc) b a < 0
   /\ compareUsers rt (byPicture desc) a b < 0
   /\ compareUsers rt (byPicture desc) b a > 0)
  /\ (sort (compareUsers rt (byPicture asc)) [a; b] = [b; a]
      /\ sort (compareUsers rt (byPicture asc)) [b; a] = [b; a]
      /\ sort (compareUsers rt (byPicture desc)) [a; b] = [a; b]
      /\ sort (compareUsers rt (byPicture desc)) [b; a] = [a; b])
  /\ (forall l : list User,
        exists present missing,
          view rt fc (byPicture asc) l = present ++ missing
          /\ List.Forall (fun u => pictureMissing u = false) present
          /\ List.Forall (fun u => pictureMissing u = true) missing)
  /\ (forall l : list User,
        exists missing present,
          view rt fc (byPicture desc) l = missing ++ present
          /\ List.Forall (fun u => pictureMissing u = true) missing
          /\ List.Forall (fun u => pictureMissing u = false) present)
  /\ (forall x y : User,
        pictureMissing x = false -> pictureMissing y = false ->
        compareUsers rt (byPicture asc) x y
        = localeCompare rt (JsString.orEmpty (profilePicture x))
                           (JsString.orEmpty (profilePicture y))
        /\ compareUsers rt (byPicture desc) x y
           = localeCompare rt (JsString.orEmpty (profilePicture y))
                              (JsString.orEmpty (profilePicture x))).
Proof.
  intros Ha Hb.
  assert (Hcmp : compareUsers rt (byPicture asc) a b = 1
                 /\ compareUsers rt (byPicture asc) b a = -1
                 /\ compareUsers rt (byPicture desc) a b = -1
                 /\ compareUsers rt (byPicture desc) b a = 1).
  { rewrite !compareUsers_byPicture, Ha, Hb. repeat split. }
  destruct Hcmp as (E1 & E2 & E3 & E4).
  split; [rewrite E1, E2, E3, E4; lia|].
  split; [unfold sort; simpl; rewrite E1, E2, E3, E4; repeat split|].
  split; [|split].
  - intros l. unfold view.
    destruct (sort_classes (compareUsers rt (byPicture asc))
                (fun u => negb (pictureMissing u))) with (l := applyFilters rt fc l)
      as (l1 & l2 & E & H1 & H2).
    + intros x y Hx Hy. rewrite compareUsers_byPicture.
      destruct (pictureMissing x), (pictureMissing y); simpl in *; (discriminate || lia).
    + intros x y Hx Hy. rewrite compareUsers_byPicture.
      destruct (pictureMissing x), (pictureMissing y); simpl in *; (discriminate || lia).
    + exists l1, l2. split; [exact E|]. split.
      * eapply List.Forall_impl; [|exact H1]. intros u Hu.
        now apply negb_true_iff in Hu.
      * eapply List.Forall_impl; [|exact H2]. intros u Hu.
        now apply negb_false_iff in Hu.
  - intros l. unfold view.
    destruct (sort_classes (compareUsers rt (byPicture desc)) pictureMissing)
      with (l := applyFilters rt fc l) as (l1 & l2 & E & H1 & H2).
    + intros x y Hx Hy. rewrite compareUsers_byPicture, Hx, Hy. simpl. lia.
    + intros x y Hx Hy. rewrite compareUsers_byPicture, Hx, Hy. simpl. lia.
    + exists l1, l2. auto.
  - intros x y Hx Hy. rewrite !compareUsers_byPicture, Hx, Hy. split; reflexivity.
Qed.

Lemma profilePicture_missing_after_present_witness :
  view utcRuntime
       (mkFilterCriteria GenderAll PictureAll EmptyString EmptyString EmptyString)
       (byPicture asc) [bob; ann] = [ann; bob]
  /\ view utcRuntime
       (mkFilterCriteria GenderAll PictureAll EmptyString EmptyString EmptyString)
       (byPicture desc) [ann; bob] = [bob; ann].
Proof.
  destruct (profilePicture_missing_after_present utcRuntime
              (mkFilterCriteria GenderAll PictureAll EmptyString EmptyString EmptyString)
              bob ann) as (_ & (E1 & _ & _ & E4) & _).
  - reflexivity.
  - reflexivity.
  - split; [exact E1 | exact E4].
Defined.

End PictureSort.

(** ** The query engine: pictures of white space only *)

Section WhitespacePicture.
Import JsString JsArray useFilteredUsers.

Lemma trimStart_whitespace (s : string) :
  all isWhiteSpace s = true -> trimStart s = EmptyString.
Proof.
  induction s as [|c s IH]; simpl; [reflexivity|].
  intros H. apply andb_prop in H as [Hc Hs]. rewrite Hc. auto.
Qed.

Lemma trim_whitespace (s : string) :
  all isWhiteSpace s = true -> trim s = EmptyString.
Proof. intros H. unfold trim. now rewrite trimStart_whitespace. Qed.

(** C10. A record whose profilePicture is a non-empty string of white
    space only has no picture for the presence filter (the setting
    without keeps it, the setting with drops it, in the view of any
    collection), and has a picture for the profilePicture comparator: it
    is not missing, it sorts before a record without a picture ascending
    and after it descending, and against a record with a picture it is
    compared by [localeCompare]. *)
Theorem whitespace_picture_filter_vs_sort
    (rt : Runtime) (sc : SortCriteria) (u : User) (p : string) :
  profilePicture u = Some p ->
  p <> EmptyString ->
  all isWhiteSpace p = true ->
  (hasProfilePicture u = false
   /\ pictureStage PictureWithout u = true
   /\ pictureStage PictureWith u = false)
  /\ (forall l : list User,
        (In u (view rt (mkFilterCriteria GenderAll PictureWithout
                          EmptyString EmptyString EmptyString) sc l) <-> In u l)
        /\ ~ In u (view rt (mkFilterCriteria GenderAll PictureWith
                              EmptyString EmptyString EmptyString) sc l))
  /\ pictureMissing u = false
  /\ (forall b : User,
        pictureMissing b = true ->
        compareUsers rt (byPicture asc) u b = -1
        /\ compareUsers rt (byPicture desc) u b = 1)
  /\ (forall b : User,
        pictureMissing b = false ->
        compareUsers rt (byPicture asc) u b
        = localeCompare rt p (orEmpty (profilePicture b))
        /\ compareUsers rt (byPicture desc) u b
           = localeCompare rt (orEmpty (profilePicture b)) p).
Proof.
  intros Hp Hne Hws.
  assert (Hhas : hasProfilePicture u = false).
  { unfold hasProfilePicture. rewrite Hp, (trim_whitespace p Hws).
    destruct p; reflexivity. }
  assert (Hmiss : pictureMissing u = false).
  { unfold pictureMissing. rewrite Hp. destruct p; [contradiction | reflexivity]. }
  split; [|split; [|split; [exact Hmiss|split]]].
  - unfold pictureStage. rewrite Hhas. repeat split.
  - intros l. unfold view. rewrite !sort_In.
    unfold applyFilters, applyDate, applyPicture, applyGender. simpl.
    rewrite !filter_In. unfold pictureStage. rewrite Hhas. simpl.
    split; [tauto | intros [_ H]; discriminate].
  - intros b Hb. rewrite !compareUsers_byPicture, Hmiss, Hb. split; reflexivity.
  - intros b Hb. rewrite !compareUsers_byPicture, Hmiss, Hb, Hp. split; reflexivity.
Qed.

Lemma whitespace_picture_filter_vs_sort_witness :
  view utcRuntime
       (mkFilterCriteria GenderAll PictureWith EmptyString EmptyString EmptyString)
       (byPicture asc) [bob; blankPictureUser; ann] = [ann]
  /\ view utcRuntime
       (mkFilterCriteria GenderAll PictureAll EmptyString EmptyString EmptyString)
       (byPicture asc) [bob; blankPictureUser; ann] = [blankPictureUser; ann; bob]
  /\ compareUsers utcRuntime (byPicture asc) blankPictureUser bob = -1.
Proof.
  destruct (whitespace_picture_filter_vs_sort utcRuntime (byPicture asc)
              blankPictureUser " "%string) as (_ & _ & _ & H & _).
  - reflexivity.
  - discriminate.
  - reflexivity.
  - split; [reflexivity|]. split; [reflexivity|]. exact (proj1 (H bob eq_refl)).
Defined.

End WhitespacePicture.

(** ** The calendar

    The two conversions between day numbers and calendar dates are
    inverse to each other, and the month and the day of the month of a
    day number are in range; so two time values have the same calendar
    date only when they fall on the same day. *)

Section Calendar.

Lemma yoe_range (doe : Z) : 0 <= doe < 146097 ->
  0 <= (doe - doe / 1460 + doe / 36524 - doe / 146096) / 365 <= 399.
Proof. intros H. Z.div_mod_to_equations. lia. Qed.

Lemma doy_range (doe yoe : Z) : 0 <= doe < 146097 ->
  yoe = (doe - doe / 1460 + doe / 36524 - doe / 146096) / 365 ->
  0 <= doe - (365 * yoe + yoe / 4 - yoe / 100) <= 365.
Proof. intros H ->. Z.div_mod_to_equations. lia. Qed.

Lemma month_day_range (doy mp : Z) : 0 <= doy <= 365 ->
  mp = (5 * doy + 2) / 153 ->
  0 <= mp <= 11 /\ 1 <= doy - (153 * mp + 2) / 5 + 1 <= 31.
Proof. intros H ->. Z.div_mod_to_equations. lia. Qed.

Lemma civilFromDays_spec (z : Z) :
  let '(y, m, d) := civilFromDays z in
  1 <= m <= 12 /\ 1 <= d <= 31 /\ daysFromCivil y m d = z.
Proof.
  unfold civilFromDays.
  set (z' := z + 719468). set (era := z' / 146097).
  set (doe := z' - era * 146097).
  assert (Hdoe : 0 <= doe < 146097).
  { subst doe era. pose proof (Z.mod_pos_bound z' 146097 ltac:(lia)).
    rewrite Z.mod_eq in H by lia. lia. }
  set (yoe := (doe - doe / 1460 + doe / 36524 - doe / 146096) / 365).
  pose proof (yoe_range doe Hdoe) as Hyoe. fold yoe in Hyoe.
  set (doy := doe - (365 * yoe + yoe / 4 - yoe / 100)).
  pose proof (doy_range doe yoe Hdoe eq_refl) as Hdoy. fold doy in Hdoy.
  set (mp := (5 * doy + 2) / 153).
  pose proof (month_day_range doy mp Hdoy eq_refl) as [Hmp Hd].
  set (d := doy - (153 * mp + 2) / 5 + 1) in *.
  unfold daysFromCivil.
  destruct (mp <? 10) eqn:E; [apply Z.ltb_lt in E | apply Z.ltb_ge in E].
  - replace (mp + 3 <=? 2) with false by (symmetry; apply Z.leb_gt; lia).
    replace (mp + 3 - 3) with mp by lia.
    replace ((yoe + era * 400 + 0) / 400) with era
      by (apply (Z.div_unique _ 400 era yoe); lia).
    split; [lia|]. split; [lia|].
    replace (yoe + era * 400 + 0 - era * 400) with yoe by lia.
    subst d doy doe z'. lia.
  - replace (mp - 9 <=? 2) with true by (symmetry; apply Z.leb_le; lia).
    replace (mp - 9 + 9) with mp by lia.
    replace ((yoe + era * 400 + 1 - 1) / 400) with era
      by (apply (Z.div_unique _ 400 era yoe); lia).
    split; [lia|]. split; [lia|].
    replace (yoe + era * 400 + 1 - 1 - era * 400) with yoe by lia.
    subst d doy doe z'. lia.
Qed.

Lemma civilFromDays_inj (z z' : Z) : civilFromDays z = civilFromDays z' -> z = z'.
Proof.
  intros E. pose proof (civilFromDays_spec z) as H.
  pose proof (civilFromDays_spec z') as H'. rewrite <- E in H'.
  destruct (civilFromDays z) as [[y m] d].
  destruct H as (_ & _ & <-), H' as (_ & _ & <-). reflexivity.
Qed.

Lemma MonthFromTime_range (t : Z) : 0 <= MonthFromTime t <= 11.
Proof.
  unfold MonthFromTime. pose proof (civilFromDays_spec (Day t)) as H.
  destruct (civilFromDays (Day t)) as [[y m] d]. cbn [fst snd]. lia.
Qed.

Lemma DateFromTime_range (t : Z) : 1 <= DateFromTime t <= 31.
Proof.
  unfold DateFromTime. pose proof (civilFromDays_spec (Day t)) as H.
  destruct (civilFromDays (Day t)) as [[y m] d]. cbn [fst snd]. lia.
Qed.

(** Same year, month and day of the month: same day. *)
Lemma calendar_date_inj (t t' : Z) :
  YearFromTime t = YearFromTime t' ->
  MonthFromTime t = MonthFromTime t' ->
  DateFromTime t = DateFromTime t' ->
  Day t = Day t'.
Proof.
  unfold YearFromTime, MonthFromTime, DateFromTime. intros Hy Hm Hd.
  apply civilFromDays_inj.
  destruct (civilFromDays (Day t)) as [[y m] d],
           (civilFromDays (Day t')) as [[y' m'] d'].
  cbn [fst snd] in *. f_equal; [f_equal|]; lia.
Qed.

End Calendar.

(** ** Date strings determine the day *)

Section DateStrings.
Import JsString Props.

Lemma append_inj_length (a a' b b' : string) :
  String.length a = String.length a' ->
  String.append a b = String.append a' b' -> a = a' /\ b = b'.
Proof.
  revert a'. induction a as [|c a IH]; intros [|c' a'] Hlen E;
    try discriminate; simpl in *.
  - auto.
  - injection E as -> E. injection Hlen as Hlen.
    destruct (IH a' Hlen E) as [-> ->]. auto.
Qed.

Lemma padDec_length (w : nat) (n : Z) : String.length (padDec w n) = w.
Proof.
  revert n. induction w as [|w IH]; intros n; cbn [padDec]; [reflexivity|].
  rewrite length_append, IH. simpl. lia.
Qed.

Lemma weekDayName_length (w : Z) : String.length (weekDayName w) = 3%nat.
Proof.
  unfold weekDayName.
  repeat match goal with
         | |- context [match ?x with _ => _ end] => destruct x
         end; reflexivity.
Qed.

Lemma monthName_length (m : Z) : String.length (monthName m) = 3%nat.
Proof.
  unfold monthName.
  repeat match goal with
         | |- context [match ?x with _ => _ end] => destruct x
         end; reflexivity.
Qed.

Lemma monthName_inj (m m' : Z) :
  0 <= m <= 11 -> 0 <= m' <= 11 -> monthName m = monthName m' -> m = m'.
Proof.
  intros H H'.
  assert (E : m = 0 \/ m = 1 \/ m = 2 \/ m = 3 \/ m = 4 \/ m = 5 \/ m = 6
              \/ m = 7 \/ m = 8 \/ m = 9 \/ m = 10 \/ m = 11) by lia.
  assert (E' : m' = 0 \/ m' = 1 \/ m' = 2 \/ m' = 3 \/ m' = 4 \/ m' = 5 \/ m' = 6
               \/ m' = 7 \/ m' = 8 \/ m' = 9 \/ m' = 10 \/ m' = 11) by lia.
  clear H H'.
  repeat (destruct E as [E|E]; [subst m|]); try subst m;
    repeat (destruct E' as [E'|E']; [subst m'|]); try subst m';
    intros Hn; (reflexivity || discriminate Hn).
Qed.

Lemma digitVal_digitChar (d : Z) : 0 <= d < 10 -> digitVal (digitChar d) = Some d.
Proof.
  intros H.
  assert (E : d = 0 \/ d = 1 \/ d = 2 \/ d = 3 \/ d = 4 \/ d = 5 \/ d = 6
              \/ d = 7 \/ d = 8 \/ d = 9) by lia.
  repeat (destruct E as [E|E]; [subst d; reflexivity|]). subst d; reflexivity.
Qed.

Lemma digitsVal_append (acc : Z) (s t : string) :
  digitsVal acc (String.append s t)
  = match digitsVal acc s with
    | Some a => digitsVal a t
    | None => None
    end.
Proof.
  revert acc. induction s as [|c s IH]; intros acc; cbn [String.append digitsVal];
    [reflexivity|].
  destruct (digitVal c); [apply IH | reflexivity].
Qed.

(** Reading the digits back gives the number, up to the width. *)
Lemma digitsVal_padDec (w : nat) (acc n : Z) :
  digitsVal acc (padDec w n) = Some (acc * 10 ^ Z.of_nat w + n mod 10 ^ Z.of_nat w).
Proof.
  revert acc n. induction w as [|w IH]; intros acc n.
  - cbn [padDec digitsVal]. rewrite Z.pow_0_r, Z.mod_1_r. f_equal. lia.
  - cbn [padDec]. rewrite digitsVal_append, IH. cbn [digitsVal].
    rewrite digitVal_digitChar by (apply Z.mod_pos_bound; lia).
    f_equal. rewrite Nat2Z.inj_succ, Z.pow_succ_r by lia.
    rewrite (Z.rem_mul_r n 10 (10 ^ Z.of_nat w)) by lia. lia.
Qed.

Lemma padDec_inj (w : nat) (n n' : Z) :
  0 <= n < 10 ^ Z.of_nat w -> 0 <= n' < 10 ^ Z.of_nat w ->
  padDec w n = padDec w n' -> n = n'.
Proof.
  intros H H' E.
  pose proof (digitsVal_padDec w 0 n) as D. rewrite E, digitsVal_padDec in D.
  injection D as D. rewrite !Z.mod_small in D by assumption. lia.
Qed.

Lemma numDigitsAux_bound (fuel : nat) (n : Z) :
  0 <= n < 2 ^ Z.of_nat (S fuel) -> n < 10 ^ Z.of_nat (numDigitsAux fuel n).
Proof.
  revert n. induction fuel as [|fuel IH]; intros n H; cbn [numDigitsAux].
  - change (2 ^ Z.of_nat 1) with 2 in H. change (10 ^ Z.of_nat 1) with 10. lia.
  - destruct (n <? 10) eqn:E; [apply Z.ltb_lt in E | apply Z.ltb_ge in E].
    + change (10 ^ Z.of_nat 1) with 10. lia.
    + rewrite Nat2Z.inj_succ, Z.pow_succ_r by lia.
      assert (Hq : n / 10 < 10 ^ Z.of_nat (numDigitsAux fuel (n / 10))).
      { apply IH. rewrite (Nat2Z.inj_succ (S fuel)), Z.pow_succ_r in H by lia.
        split; [apply Z.div_pos; lia|].
        apply Z.div_lt_upper_bound; lia. }
      pose proof (Z.div_mod n 10 ltac:(lia)).
      pose proof (Z.mod_pos_bound n 10 ltac:(lia)). lia.
Qed.

Lemma numDigits_bound (n : Z) : 0 <= n -> n < 10 ^ Z.of_nat (numDigits n).
Proof.
  intros H. unfold numDigits. apply numDigitsAux_bound. split; [assumption|].
  rewrite Nat2Z.inj_succ, Z2Nat.id by apply Z.log2_nonneg.
  destruct (Z.eq_dec n 0) as [->|Hn]; [reflexivity|].
  apply Z.log2_spec. lia.
Qed.

Lemma padded_inj (w w' : nat) (n n' : Z) :
  0 <= n < 10 ^ Z.of_nat w -> 0 <= n' < 10 ^ Z.of_nat w' ->
  padDec w n = padDec w' n' -> n = n'.
Proof.
  intros H H' E.
  assert (w = w') as <-.
  { rewrite <- (padDec_length w n), E. apply padDec_length. }
  now apply (padDec_inj w).
Qed.

Lemma ToZeroPadded_inj (k : nat) (n n' : Z) :
  0 <= n -> 0 <= n' ->
  ToZeroPaddedDecimalString n k = ToZeroPaddedDecimalString n' k -> n = n'.
Proof.
  unfold ToZeroPaddedDecimalString. intros H H'. apply padded_inj.
  - split; [assumption|]. eapply Z.lt_le_trans; [apply numDigits_bound; assumption|].
    apply Z.pow_le_mono_r; lia.
  - split; [assumption|]. eapply Z.lt_le_trans; [apply numDigits_bound; assumption|].
    apply Z.pow_le_mono_r; lia.
Qed.

Lemma padDec_not_dash (w : nat) (n : Z) (s : string) :
  padDec w n <> String "-" s.
Proof.
  intros E. pose proof (padDec_digits w n) as H. rewrite E in H. discriminate.
Qed.

(** The signed year of [DateString]. *)
Lemma signedYear_inj (y y' : Z) :
  String.append (if 0 <=? y then EmptyString else "-"%string)
                (ToZeroPaddedDecimalString (Z.abs y) 4)
  = String.append (if 0 <=? y' then EmptyString else "-"%string)
                  (ToZeroPaddedDecimalString (Z.abs y') 4) ->
  y = y'.
Proof.
  destruct (0 <=? y) eqn:E, (0 <=? y') eqn:E'; cbn [String.append]; intros H;
    try apply Z.leb_le in E; try apply Z.leb_le in E';
    try apply Z.leb_gt in E; try apply Z.leb_gt in E'.
  - apply ToZeroPadded_inj in H; lia.
  - exfalso. exact (padDec_not_dash _ _ _ H).
  - exfalso. exact (padDec_not_dash _ _ _ (eq_sym H)).
  - injection H as H. apply ToZeroPadded_inj in H; lia.
Qed.

Lemma concat4_inj (a b c d a' b' c' d' : string) :
  String.length a = String.length a' ->
  String.length b = String.length b' ->
  String.length c = String.length c' ->
  String.concat " " [a; b; c; d] = String.concat " " [a'; b'; c'; d'] ->
  a = a' /\ b = b' /\ c = c' /\ d = d'.
Proof.
  intros Ha Hb Hc. cbn [String.concat].
  change (String.append " " ?x) with (String " "%char x).
  intros E.
  apply append_inj_length in E as [-> E]; [|assumption]. injection E as E.
  apply append_inj_length in E as [-> E]; [|assumption]. injection E as E.
  apply append_inj_length in E as [-> E]; [|assumption]. injection E as E.
  auto.
Qed.

(** The date string of a time value determines its day. *)
Lemma DateString_inj (t t' : Z) : DateString t = DateString t' -> Day t = Day t'.
Proof.
  unfold DateString. cbv zeta. intros E.
  apply concat4_inj in E as (_ & Em & Ed & Ey).
  - apply calendar_date_inj.
    + now apply signedYear_inj.
    + apply monthName_inj; auto using MonthFromTime_range.
    + pose proof (DateFromTime_range t). pose proof (DateFromTime_range t').
      apply (padDec_inj 2); [change (10 ^ Z.of_nat 2) with 100; lia ..| assumption].
  - now rewrite !weekDayName_length.
  - now rewrite !monthName_length.
  - now rewrite !padDec_length.
Qed.

Lemma DateString_valid (t : Z) : DateString t <> "Invalid Date"%string.
Proof.
  unfold DateString. cbn [String.concat]. cbv zeta. intros E.
  change "Invalid Date"%string with (String.append "Inv" "alid Date") in E.
  apply append_inj_length in E as [_ E]; [|now rewrite weekDayName_length].
  discriminate E.
Qed.

End DateStrings.

(** ** The query engine: the date-of-birth filter *)

Section DateOfBirthFilter.
Import JsString JsArray useFilteredUsers.

Lemma DateString_Day (t t' : Z) : Day t = Day t' -> DateString t = DateString t'.
Proof.
  intros H. unfold DateString, YearFromTime, MonthFromTime, DateFromTime, WeekDay.
  rewrite H. reflexivity.
Qed.

(** Two dates on the same local day read the same by [toDateString]:
    the time of day is ignored. *)
Lemma sameDateString_sameLocalDay (rt : Runtime) (t t' : Z) :
  Day (LocalTime (LocalTZA rt) t) = Day (LocalTime (LocalTZA rt) t') ->
  sameDateString rt (TimeValue t') (TimeValue t) = true.
Proof.
  intros H. unfold sameDateString, toDateString.
  rewrite (DateString_Day _ _ H). apply String.eqb_refl.
Qed.

Lemma view_In (rt : Runtime) (fc : FilterCriteria) (sc : SortCriteria)
    (l : list User) (u : User) :
  In u (view rt fc sc l)
  <-> In u l /\ stagePredicate rt fc StageDateOfBirth u = true
      /\ passesOtherStages rt fc u = true.
Proof.
  unfold view. rewrite sort_In, applyFilters_sourceOrder, applyStages_filter, filter_In.
  unfold passesOtherStages. cbn [forallb sourceOrder].
  rewrite !andb_true_iff. tauto.
Qed.

Lemma Day_2000_01_01 (tv : Z) :
  startOf_2000_01_01 <= tv < startOf_2000_01_01 + msPerDay ->
  Day tv = Day startOf_2000_01_01.
Proof.
  unfold Day, startOf_2000_01_01, msPerDay. intros H.
  change (946684800000 / 86400000) with 10957.
  symmetry. apply (Z.div_unique tv 86400000 10957 (tv - 946684800000)); lia.
Qed.

End DateOfBirthFilter.

Section DateOfBirthTheorems.
Import JsString JsArray useFilteredUsers.

(** The comparison of the filter: the record's date is valid and falls
    on the local calendar day of the filter's date. *)
Lemma sameDateString_iff (rt : Runtime) (f : Z) (d : Date) :
  sameDateString rt (TimeValue f) d = true
  <-> exists tv, d = TimeValue tv
                 /\ Day (LocalTime (LocalTZA rt) tv) = Day (LocalTime (LocalTZA rt) f).
Proof.
  unfold sameDateString. rewrite String.eqb_eq. destruct d as [tv|]; cbn [toDateString].
  - split.
    + intros E. exists tv. split; [reflexivity | now apply DateString_inj].
    + intros (tv' & [= <-] & E). now apply DateString_Day.
  - split.
    + intros E. symmetry in E. now apply DateString_valid in E.
    + intros (tv' & E & _). discriminate E.
Qed.

Lemma dateStage_2000_01_01 (rt : Runtime) (u : User) :
  dateStage rt "2000-01-01" dateOfBirth u = true
  <-> exists tv, dateOfBirth u = TimeValue tv
                 /\ Day (LocalTime (LocalTZA rt) tv)
                    = Day (LocalTime (LocalTZA rt) startOf_2000_01_01).
Proof.
  unfold dateStage, ofDate.
  change (ofString (parseOther rt) "2000-01-01") with (TimeValue startOf_2000_01_01).
  apply sameDateString_iff.
Qed.

Lemma Day_2000_01_01_iff (tv : Z) :
  Day tv = Day startOf_2000_01_01
  <-> startOf_2000_01_01 <= tv < startOf_2000_01_01 + msPerDay.
Proof.
  split; [|apply Day_2000_01_01].
  unfold Day, startOf_2000_01_01, msPerDay.
  change (946684800000 / 86400000) with 10957.
  intros H. Z.div_mod_to_equations. lia.
Qed.

Lemma view_In_2000_01_01 (rt : Runtime) (fc : FilterCriteria) (sc : SortCriteria)
    (l : list User) (u : User) :
  dateOfBirthFilter fc = "2000-01-01"%string ->
  In u (view rt fc sc l)
  <-> In u l /\ passesOtherStages rt fc u = true
      /\ exists tv, dateOfBirth u = TimeValue tv
                    /\ Day (LocalTime (LocalTZA rt) tv)
                       = Day (LocalTime (LocalTZA rt) startOf_2000_01_01).
Proof.
  intros Hf. rewrite view_In. unfold stagePredicate at 1. rewrite Hf. cbn [truthy].
  rewrite dateStage_2000_01_01. tauto.
Qed.

(** In a runtime whose local time zone is UTC the date-of-birth filter
    set to 2000-01-01 does what the scenario asks: the view holds exactly
    the records that the other four stages keep and whose dateOfBirth is
    an instant of 2000-01-01 UTC; so a record stored at
    2000-01-01T23:59:59Z or at 2000-01-01T00:00:01Z is in the view exactly
    when the other stages keep it, and a record stored at
    2000-01-02T00:00:01Z is not in the view. *)
Lemma dateOfBirth_filter_in_utc
    (rt : Runtime) (fc : FilterCriteria) (sc : SortCriteria)
    (l : list User) (u : User) :
  (forall t, LocalTZA rt t = 0) ->
  dateOfBirthFilter fc = "2000-01-01"%string ->
  (In u (view rt fc sc l)
   <-> In u l /\ passesOtherStages rt fc u = true
       /\ exists tv, dateOfBirth u = TimeValue tv
                     /\ startOf_2000_01_01 <= tv < startOf_2000_01_01 + msPerDay)
  /\ (dateOfBirth u = TimeValue t_2000_01_01_235959 ->
      (In u (view rt fc sc l) <-> In u l /\ passesOtherStages rt fc u = true))
  /\ (dateOfBirth u = TimeValue t_2000_01_01_000001 ->
      (In u (view rt fc sc l) <-> In u l /\ passesOtherStages rt fc u = true))
  /\ (dateOfBirth u = TimeValue t_2000_01_02_000001 ->
      ~ In u (view rt fc sc l)).
Proof.
  intros Hutc Hf.
  assert (Hview : In u (view rt fc sc l)
                  <-> In u l /\ passesOtherStages rt fc u = true
                      /\ exists tv, dateOfBirth u = TimeValue tv
                           /\ startOf_2000_01_01 <= tv < startOf_2000_01_01 + msPerDay).
  { rewrite (view_In_2000_01_01 rt fc sc l u Hf).
    unfold LocalTime. setoid_rewrite Hutc. setoid_rewrite Z.add_0_r.
    setoid_rewrite Day_2000_01_01_iff. reflexivity. }
  split; [exact Hview|]. split; [|split].
  - intros Hu. rewrite Hview. split; [tauto|]. intros [Hin Ho].
    split; [assumption|]. split; [assumption|]. eexists. split; [exact Hu|].
    unfold t_2000_01_01_235959, startOf_2000_01_01, msPerDay. lia.
  - intros Hu. rewrite Hview. split; [tauto|]. intros [Hin Ho].
    split; [assumption|]. split; [assumption|]. eexists. split; [exact Hu|].
    unfold t_2000_01_01_000001, startOf_2000_01_01, msPerDay. lia.
  - intros Hu Hin. apply Hview in Hin as (_ & _ & tv & Htv & Hrange).
    rewrite Hu in Htv. injection Htv as <-.
    unfold t_2000_01_02_000001, startOf_2000_01_01, msPerDay in Hrange. lia.
Qed.

Example dateOfBirth_filter_scenario_in_utc :
  view utcRuntime (onlyDateOfBirth "2000-01-01") byNameAscending
       [ bornAt "late" t_2000_01_01_235959; bornAt "next" t_2000_01_02_000001;
         bornAt "early" t_2000_01_01_000001 ]
  = [ bornAt "late" t_2000_01_01_235959; bornAt "early" t_2000_01_01_000001 ].
Proof. reflexivity. Qed.

(** C1. The filter reads its date as midnight UTC and then compares
    calendar days of the local time zone, so away from UTC it does not
    select the day it was set to.  In a runtime five hours behind UTC,
    with the date-of-birth filter set to 2000-01-01 and no other filter,
    on the collection of a record stored at 2000-01-01T23:59:59Z and a
    record stored at 1999-12-31T12:00:00Z: the first record, which is on
    1 January 2000 both in UTC and in local time, is dropped, and the
    second, which is on 31 December 1999 both in UTC and in local time, is
    kept; the filter's date reads as 31 December 1999. *)
Theorem dateOfBirth_filter_utc_minus_5 :
  view utcMinus5Runtime (onlyDateOfBirth "2000-01-01") byNameAscending
       [ bornAt "late" t_2000_01_01_235959; bornAt "eve" t_1999_12_31_120000 ]
  = [ bornAt "eve" t_1999_12_31_120000 ]
  /\ toDateString (LocalTZA utcMinus5Runtime) (TimeValue t_2000_01_01_235959)
     = "Sat Jan 01 2000"%string
  /\ toDateString (LocalTZA utcRuntime) (TimeValue t_2000_01_01_235959)
     = "Sat Jan 01 2000"%string
  /\ toDateString (LocalTZA utcMinus5Runtime) (TimeValue t_1999_12_31_120000)
     = "Fri Dec 31 1999"%string
  /\ toDateString (LocalTZA utcRuntime) (TimeValue t_1999_12_31_120000)
     = "Fri Dec 31 1999"%string
  /\ toDateString (LocalTZA utcMinus5Runtime)
                  (ofString (parseOther utcMinus5Runtime) "2000-01-01")
     = "Fri Dec 31 1999"%string.
Proof. vm_compute. repeat split. Qed.

(** The same away from UTC to the east: eight hours ahead of UTC, the
    record stored at 2000-01-01T23:59:59Z (07:59:59 of 2 January, local
    time) is not in the view of the collection that holds just it. *)
Lemma dateOfBirth_filter_utc_plus_8 :
  view utcPlus8Runtime (onlyDateOfBirth "2000-01-01") byNameAscending
       [ bornAt "late" t_2000_01_01_235959 ] = []
  /\ toDateString (LocalTZA utcPlus8Runtime) (TimeValue t_2000_01_01_235959)
     = "Sun Jan 02 2000"%string
  /\ toDateString (LocalTZA utcPlus8Runtime) (ofString (parseOther utcPlus8Runtime) "2000-01-01")
     = "Sat Jan 01 2000"%string.
Proof. repeat split. Qed.

End DateOfBirthTheorems.

(** ** The query engine: what the view holds and how it is ordered *)

Section ViewContents.
Import JsString JsArray useFilteredUsers.

Lemma applyFilters_filter (rt : Runtime) (fc : FilterCriteria) (l : list User) :
  applyFilters rt fc l = List.filter (passesAllStages rt fc) l.
Proof. rewrite applyFilters_sourceOrder. apply applyStages_filter. Qed.

(** X1. The view is a rearrangement of the records of the collection that
    pass every stage: each such record occurs in the view as often as in
    the collection, no other record occurs, and the view is never longer
    than the collection. *)
Theorem view_rearranges_kept_records
    (rt : Runtime) (fc : FilterCriteria) (sc : SortCriteria) (l : list User) :
  Permutation (view rt fc sc l) (List.filter (passesAllStages rt fc) l)
  /\ (forall u, In u (view rt fc sc l) <-> In u l /\ passesAllStages rt fc u = true)
  /\ (length (view rt fc sc l) <= length l)%nat.
Proof.
  assert (P : Permutation (view rt fc sc l) (List.filter (passesAllStages rt fc) l)).
  { unfold view. rewrite applyFilters_filter. apply sort_Permutation. }
  split; [exact P|]. split.
  - intros u. rewrite <- filter_In. split; apply Permutation_in; [|symmetry]; exact P.
  - rewrite (Permutation_length P). apply filter_length_le.
Qed.

(** X2. The filter pipeline only removes records, keeping the order of the
    ones it keeps, and filtering its own result again changes nothing; so
    the view of the filtered collection is the view of the collection. *)
Theorem applyFilters_idempotent
    (rt : Runtime) (fc : FilterCriteria) (sc : SortCriteria) (l : list User) :
  sublist (applyFilters rt fc l) l
  /\ applyFilters rt fc (applyFilters rt fc l) = applyFilters rt fc l
  /\ view rt fc sc (applyFilters rt fc l) = view rt fc sc l.
Proof.
  assert (E : applyFilters rt fc (applyFilters rt fc l) = applyFilters rt fc l).
  { rewrite !applyFilters_filter, filter_twice. apply filter_ext.
    intros u. apply andb_diag. }
  split; [|split; [exact E|unfold view; now rewrite E]].
  clear E. rewrite applyFilters_filter. generalize (passesAllStages rt fc). intros p.
  induction l as [|u l IH]; simpl; [constructor|].
  destruct (p u); [apply sublist_skip | apply sublist_cons]; exact IH.
Qed.

End ViewContents.

(** ** The query engine: the order of the view *)

Section SortOn.
Import JsArray.
Context {A : Type}.
Variable compareFn : A -> A -> Z.
Variable P : A -> Prop.
Variable R : A -> A -> Prop.
Hypothesis not_after : forall x y, P x -> P y -> compareFn x y <= 0 -> R x y.
Hypothesis after : forall x y, P x -> P y -> compareFn x y > 0 -> R y x.
Hypothesis R_trans : forall x y z, P x -> P y -> P z -> R x y -> R y z -> R x z.

Lemma insertSorted_sorted_on (x : A) (l : list A) :
  P x -> List.Forall P l -> StronglySorted R l ->
  StronglySorted R (insertSorted compareFn x l).
Proof.
  intros Hx Hl Hs. induction Hs as [|y l Hs IH Hy]; simpl.
  - repeat constructor.
  - inversion Hl as [|? ? Py Pl]; subst.
    destruct (compareFn x y <=? 0) eqn:E.
    + apply Z.leb_le in E. constructor; [now constructor|].
      constructor; [now apply not_after|].
      rewrite List.Forall_forall in *. intros z Hz.
      apply (R_trans x y z); auto.
    + apply Z.leb_gt in E. constructor; [now apply IH|].
      apply List.Forall_forall. intros z Hz.
      apply (Permutation_in _ (insertSorted_Permutation compareFn x l)) in Hz.
      destruct Hz as [<-|Hz]; [apply after; auto; lia|].
      rewrite List.Forall_forall in Hy. now apply Hy.
Qed.

(** Sorting elements on which the comparator decides the relation [R]
    gives a list in the order [R]. *)
Lemma sort_sorted_on (l : list A) :
  List.Forall P l -> StronglySorted R (sort compareFn l).
Proof.
  induction 1 as [|x l Hx Hl IH]; [constructor|].
  change (sort compareFn (x :: l)) with (insertSorted compareFn x (sort compareFn l)).
  apply insertSorted_sorted_on; [assumption| |assumption].
  rewrite List.Forall_forall in *. intros z Hz. apply Hl.
  now apply (Permutation_in _ (sort_Permutation compareFn l)).
Qed.

End SortOn.

Section SortUnchanged.
Import JsArray.
Context {A : Type}.
Variable compareFn : A -> A -> Z.

(** A list no element of which sorts after another is left as it is. *)
Lemma sort_all_equal (l : list A) :
  (forall x y, In x l -> In y l -> compareFn x y <= 0) -> sort compareFn l = l.
Proof.
  intros H. apply sort_of_sorted.
  induction l as [|x l IH]; constructor.
  - apply IH. intros a b Ha Hb. apply H; now right.
  - apply List.Forall_forall. intros y Hy. apply H; [now left | now right].
Qed.

End SortUnchanged.

Section CodeUnitCollation.

Lemma Ascii_compare_N (a b : ascii) :
  Ascii.compare a b = N.compare (N_of_ascii a) (N_of_ascii b).
Proof. reflexivity. Qed.

Lemma Ascii_compare_Eq (a b : ascii) : Ascii.compare a b = Eq <-> a = b.
Proof.
  split; [apply Ascii.compare_eq_iff|]. intros ->.
  rewrite Ascii_compare_N. apply N.compare_refl.
Qed.

Lemma String_compare_trans (x y z : string) :
  String.compare x y <> Gt -> String.compare y z <> Gt -> String.compare x z <> Gt.
Proof.
  revert y z. induction x as [|a x IH]; intros [|b y] [|c z]; simpl;
    try congruence.
  destruct (Ascii.compare a b) eqn:Eab; try congruence.
  - apply Ascii_compare_Eq in Eab as ->.
    destruct (Ascii.compare b c) eqn:Ebc; try congruence. apply IH.
  - destruct (Ascii.compare b c) eqn:Ebc; try congruence.
    + apply Ascii_compare_Eq in Ebc as ->. rewrite Eab. congruence.
    + rewrite Ascii_compare_N in Eab, Ebc. rewrite N.compare_lt_iff in Eab, Ebc.
      assert (Hac : (N_of_ascii a < N_of_ascii c)%N) by (eapply N.lt_trans; eassumption).
      apply N.compare_lt_iff in Hac. rewrite Ascii_compare_N, Hac. congruence.
Qed.

(** The collation by code units is consistent. *)
Lemma codeUnitCompare_consistent : consistentCollation utcRuntime.
Proof.
  split; cbn [localeCompare utcRuntime]; unfold codeUnitCompare.
  - intros x y H. rewrite (String.compare_antisym y x).
    destruct (String.compare x y); simpl in *; lia.
  - intros x y z Hxy Hyz.
    assert (String.compare x z <> Gt).
    { apply (String_compare_trans x y z).
      - destruct (String.compare x y); [congruence | congruence | lia].
      - destruct (String.compare y z); [congruence | congruence | lia]. }
    destruct (String.compare x z); [lia | lia | congruence].
Qed.

End CodeUnitCollation.

Section ViewOrder.
Import JsString JsArray useFilteredUsers.

Lemma applyFilters_In (rt : Runtime) (fc : FilterCriteria) (l : list User) (u : User) :
  In u (applyFilters rt fc l) -> In u l.
Proof. rewrite applyFilters_filter, filter_In. tauto. Qed.

Lemma compareUsers_dates (rt : Runtime) (key : SortKey) (o : SortOrder)
    (a b : User) (ta tb : Z) :
  field key a = FDate (TimeValue ta) -> field key b = FDate (TimeValue tb) ->
  compareUsers rt (mkSortCriteria key o) a b
  = match o with asc => ta - tb | desc => tb - ta end.
Proof.
  intros Ha Hb. unfold compareUsers. cbn [sortBy sortOrder]. rewrite Ha, Hb.
  destruct o; reflexivity.
Qed.

(** X3. Sorting by a date property (dateOfBirth, createdAt, updatedAt)
    whose date is valid in every record of the collection: ascending, no
    record of the view is earlier than one before it; descending, none is
    later. *)
Theorem view_ordered_by_date
    (rt : Runtime) (fc : FilterCriteria) (key : SortKey) (l : list User) :
  (forall u, In u l -> exists tv, field key u = FDate (TimeValue tv)) ->
  StronglySorted (notLater key) (view rt fc (mkSortCriteria key asc) l)
  /\ StronglySorted (fun a b => notLater key b a)
                    (view rt fc (mkSortCriteria key desc) l).
Proof.
  intros Hvalid.
  assert (HP : List.Forall (fun u => exists tv, field key u = FDate (TimeValue tv))
                           (applyFilters rt fc l)).
  { apply List.Forall_forall. intros u Hu. apply Hvalid. eapply applyFilters_In, Hu. }
  split; unfold view.
  - apply (sort_sorted_on _ (fun u => exists tv, field key u = FDate (TimeValue tv)));
      [| | |exact HP].
    + intros x y [tx Hx] [ty Hy]. rewrite (compareUsers_dates rt key asc x y tx ty Hx Hy).
      unfold notLater, timeAt. rewrite Hx, Hy. lia.
    + intros x y [tx Hx] [ty Hy]. rewrite (compareUsers_dates rt key asc x y tx ty Hx Hy).
      unfold notLater, timeAt. rewrite Hx, Hy. lia.
    + intros x y z [tx Hx] [ty Hy] [tz Hz]. unfold notLater, timeAt.
      rewrite Hx, Hy, Hz. lia.
  - apply (sort_sorted_on _ (fun u => exists tv, field key u = FDate (TimeValue tv)));
      [| | |exact HP].
    + intros x y [tx Hx] [ty Hy]. rewrite (compareUsers_dates rt key desc x y tx ty Hx Hy).
      unfold notLater, timeAt. rewrite Hx, Hy. lia.
    + intros x y [tx Hx] [ty Hy]. rewrite (compareUsers_dates rt key desc x y tx ty Hx Hy).
      unfold notLater, timeAt. rewrite Hx, Hy. lia.
    + intros x y z [tx Hx] [ty Hy] [tz Hz]. unfold notLater, timeAt.
      rewrite Hx, Hy, Hz. lia.
Qed.

Lemma view_ordered_by_date_witness :
  StronglySorted (notLater KeyDateOfBirth)
    (view utcRuntime (mkFilterCriteria GenderAll PictureAll EmptyString EmptyString EmptyString)
          (mkSortCriteria KeyDateOfBirth asc) [bob; ann])
  /\ view utcRuntime
          (mkFilterCriteria GenderAll PictureAll EmptyString EmptyString EmptyString)
          (mkSortCriteria KeyDateOfBirth asc) [bob; ann] = [ann; bob].
Proof.
  split; [|reflexivity].
  apply (view_ordered_by_date utcRuntime
           (mkFilterCriteria GenderAll PictureAll EmptyString EmptyString EmptyString)
           KeyDateOfBirth [bob; ann]).
  intros u [<-|[<-|[]]]; eexists; reflexivity.
Defined.

Lemma compareUsers_strings (rt : Runtime) (key : SortKey) (o : SortOrder)
    (a b : User) :
  isStringKey key = true ->
  exists sa sb, stringAt key a = Some sa /\ stringAt key b = Some sb
                /\ compareUsers rt (mkSortCriteria key o) a b
                   = match o with
                     | asc => localeCompare rt sa sb
                     | desc => localeCompare rt sb sa
                     end.
Proof.
  destruct key; try discriminate; intros _; unfold stringAt, compareUsers;
    cbn [sortBy sortOrder field isKeyGender isKeyProfilePicture];
    eexists; eexists; (split; [reflexivity|]); (split; [reflexivity|]);
    destruct o; reflexivity.
Qed.

(** X4. Sorting by name, email or gender under a consistent collation:
    ascending, no record of the view collates after one that follows it;
    descending, none collates before. *)
Theorem view_ordered_by_collation
    (rt : Runtime) (fc : FilterCriteria) (key : SortKey) (l : list User) :
  consistentCollation rt ->
  isStringKey key = true ->
  StronglySorted (notAfter rt key) (view rt fc (mkSortCriteria key asc) l)
  /\ StronglySorted (fun a b => notAfter rt key b a)
                    (view rt fc (mkSortCriteria key desc) l).
Proof.
  intros [Hcmp Htrans] Hkey.
  assert (HP : List.Forall (fun _ : User => True) (applyFilters rt fc l)).
  { apply List.Forall_forall. auto. }
  split; unfold view.
  - apply (sort_sorted_on _ (fun _ => True)); [| | |exact HP].
    + intros x y _ _.
      destruct (compareUsers_strings rt key asc x y Hkey) as (sx & sy & Hx & Hy & ->).
      unfold notAfter. now rewrite Hx, Hy.
    + intros x y _ _.
      destruct (compareUsers_strings rt key asc x y Hkey) as (sx & sy & Hx & Hy & ->).
      unfold notAfter. rewrite Hx, Hy. apply Hcmp.
    + intros x y z _ _ _.
      destruct (compareUsers_strings rt key asc x y Hkey) as (sx & sy & Hx & Hy & _).
      destruct (compareUsers_strings rt key asc y z Hkey) as (sy' & sz & _ & Hz & _).
      unfold notAfter. rewrite Hx, Hy, Hz. apply Htrans.
  - apply (sort_sorted_on _ (fun _ => True)); [| | |exact HP].
    + intros x y _ _.
      destruct (compareUsers_strings rt key desc x y Hkey) as (sx & sy & Hx & Hy & ->).
      unfold notAfter. now rewrite Hx, Hy.
    + intros x y _ _.
      destruct (compareUsers_strings rt key desc x y Hkey) as (sx & sy & Hx & Hy & ->).
      unfold notAfter. rewrite Hx, Hy. apply Hcmp.
    + intros x y z _ _ _.
      destruct (compareUsers_strings rt key asc x y Hkey) as (sx & sy & Hx & Hy & _).
      destruct (compareUsers_strings rt key asc y z Hkey) as (sy' & sz & _ & Hz & _).
      unfold notAfter. rewrite Hx, Hy, Hz. intros H1 H2. now apply (Htrans sz sy sx).
Qed.

Lemma view_ordered_by_collation_witness :
  StronglySorted (notAfter utcRuntime KeyName)
    (view utcRuntime (mkFilterCriteria GenderAll PictureAll EmptyString EmptyString EmptyString)
          byNameAscending [bob; blankPictureUser; ann])
  /\ view utcRuntime
          (mkFilterCriteria GenderAll PictureAll EmptyString EmptyString EmptyString)
          byNameAscending [bob; blankPictureUser; ann] = [ann; bob; blankPictureUser].
Proof.
  split; [|reflexivity].
  apply (view_ordered_by_collation utcRuntime
           (mkFilterCriteria GenderAll PictureAll EmptyString EmptyString EmptyString)
           KeyName [bob; blankPictureUser; ann]).
  - exact codeUnitCompare_consistent.
  - reflexivity.
Defined.

End ViewOrder.

Section ViewFallback.
Import JsString JsArray useFilteredUsers.

Lemma compareUsers_incomparable (rt : Runtime) (key : SortKey) (o : SortOrder)
    (a b : User) :
  timeAt key a = None -> stringAt key a = None ->
  timeAt key b = None -> stringAt key b = None ->
  compareUsers rt (mkSortCriteria key o) a b = 0.
Proof.
  unfold timeAt, stringAt, compareUsers. cbn [sortBy sortOrder].
  destruct key; cbn [field isKeyGender isKeyProfilePicture ofOptionString];
    try discriminate.
  - destruct (id a), (id b); try discriminate. reflexivity.
  - destruct (dateOfBirth a), (dateOfBirth b); try discriminate. destruct o; reflexivity.
  - destruct (profilePicture a), (profilePicture b); try discriminate. reflexivity.
  - destruct (createdAt a), (createdAt b); try discriminate. destruct o; reflexivity.
  - destruct (updatedAt a), (updatedAt b); try discriminate. destruct o; reflexivity.
Qed.

(** X5. Sorting by a property that in every record of the collection is
    neither a valid date nor a string (an invalid date, an undefined id
    or picture) reorders nothing: the view is the filtered collection, in
    the order of the collection, in both directions. *)
Theorem view_keeps_order_without_values
    (rt : Runtime) (fc : FilterCriteria) (key : SortKey) (o : SortOrder)
    (l : list User) :
  (forall u, In u l -> timeAt key u = None /\ stringAt key u = None) ->
  view rt fc (mkSortCriteria key o) l = applyFilters rt fc l.
Proof.
  intros H. unfold view. apply sort_all_equal. intros x y Hx Hy.
  apply applyFilters_In, H in Hx. apply applyFilters_In, H in Hy.
  destruct Hx, Hy. rewrite compareUsers_incomparable by assumption. lia.
Qed.

Lemma view_keeps_order_without_values_witness :
  view utcRuntime (mkFilterCriteria GenderAll PictureAll EmptyString EmptyString EmptyString)
       (mkSortCriteria KeyCreatedAt desc) [undatedUser "b"; undatedUser "a"]
  = [undatedUser "b"; undatedUser "a"].
Proof.
  apply (view_keeps_order_without_values utcRuntime
           (mkFilterCriteria GenderAll PictureAll EmptyString EmptyString EmptyString)
           KeyCreatedAt desc [undatedUser "b"; undatedUser "a"]).
  intros u [<-|[<-|[]]]; split; reflexivity.
Defined.

(** X6. For every sort key, the descending comparator is the ascending
    comparator with its two records exchanged. *)
Theorem compareUsers_desc_exchanges
    (rt : Runtime) (key : SortKey) (a b : User) :
  compareUsers rt (mkSortCriteria key desc) a b
  = compareUsers rt (mkSortCriteria key asc) b a.
Proof.
  unfold compareUsers. cbn [sortBy sortOrder].
  destruct key; cbn [field isKeyGender isKeyProfilePicture ofOptionString]; try reflexivity.
  - destruct (id a), (id b); reflexivity.
  - destruct (profilePicture a) as [[|? ?]|], (profilePicture b) as [[|? ?]|]; reflexivity.
Qed.

End ViewFallback.

(** ** The collection store: ids, lookups after writes *)

Section StoreIds.
Import useUsers.

Lemma map_id_insert (l : list User) (i : nat) (old u : User) :
  l !! i = Some old -> id old = id u ->
  List.map id (<[i := u]> l) = List.map id l.
Proof.
  revert i. induction l as [|x l IH]; intros [|i] H E; try discriminate; simpl in *.
  - injection H as ->. now rewrite E.
  - f_equal. now apply IH.
Qed.

Lemma findIndex_Some {A} (p : A -> bool) (l : list A) (i : nat) :
  findIndex p l = Some i ->
  exists x, l !! i = Some x /\ p x = true
            /\ forall j y, (j < i)%nat -> l !! j = Some y -> p y = false.
Proof.
  revert i. induction l as [|z l IH]; intros i; simpl; [discriminate|].
  destruct (p z) eqn:E.
  - intros [= <-]. exists z. repeat split; [assumption|]. intros j y Hj. lia.
  - destruct (findIndex p l) as [k|]; simpl; [|discriminate].
    intros [= <-]. destruct (IH k eq_refl) as (x & Hx & Hp & Hfirst).
    exists x. repeat split; [assumption .. |].
    intros [|j] y Hj Hy; simpl in Hy; [congruence|].
    apply (Hfirst j y); [lia | assumption].
Qed.

Lemma updateUser_users (remote : Outcome User) (s : State) :
  users (final (updateUser remote s))
  = match remote with
    | Resolved updatedUser =>
        match findIndex (fun user => optionStringEqb (id user) (id updatedUser))
                        (users s) with
        | Some i => <[i := updatedUser]> (users s)
        | None => users s
        end
    | Rejected _ => users s
    end.
Proof.
  destruct remote as [u|err]; [|reflexivity].
  apply (updateUser_resolved u s).
Qed.

Lemma updateUser_ids (remote : Outcome User) (s : State) :
  ids (final (updateUser remote s)) = ids s.
Proof.
  unfold ids. rewrite updateUser_users. destruct remote as [u|err]; [|reflexivity].
  destruct (findIndex _ (users s)) as [i|] eqn:F; [|reflexivity].
  apply findIndex_Some in F as (old & Hold & Hp & _).
  apply optionStringEqb_eq in Hp. now apply (map_id_insert _ i old).
Qed.

(** X7. An update, however the remote write ends, leaves the ids of the
    in-memory records as they were, position by position; so it keeps the
    number of records, and never puts into the list a record under an id
    the list did not hold. *)
Theorem updateUser_keeps_ids (remote : Outcome User) (s : State) :
  ids (final (updateUser remote s)) = ids s
  /\ length (users (final (updateUser remote s))) = length (users s).
Proof.
  pose proof (updateUser_ids remote s) as E.
  split; [exact E|].
  unfold ids in E. apply (f_equal (@length _)) in E.
  now rewrite !length_map in E.
Qed.

Lemma deleteUser_users (i : string) (remote : Outcome unit) (s : State) :
  users (final (deleteUser i remote s))
  = match remote with
    | Resolved _ => removeById i (users s)
    | Rejected _ => users s
    end.
Proof. destruct remote; reflexivity. Qed.

Lemma ids_removeById (i : string) (l : list User) :
  List.map id (removeById i l)
  = List.filter (fun x => negb (optionStringEqb x (Some i))) (List.map id l).
Proof.
  unfold removeById. induction l as [|u l IH]; simpl; [reflexivity|].
  destruct (negb (optionStringEqb (id u) (Some i))); simpl; now rewrite IH.
Qed.

(** X8. When no two in-memory records share an id, none do after an
    update or a delete, however the remote call ends, nor after a create
    that resolves with a record under an id the list does not hold; a
    create that is rejected leaves the list as it was. *)
Theorem store_keeps_ids_distinct (s : State) :
  List.NoDup (ids s) ->
  (forall remote, List.NoDup (ids (final (updateUser remote s))))
  /\ (forall i remote, List.NoDup (ids (final (deleteUser i remote s))))
  /\ (forall newUser,
        ~ In (id newUser) (ids s) ->
        List.NoDup (ids (final (createUser (Resolved newUser) s))))
  /\ (forall err, users (final (createUser (Rejected err) s)) = users s).
Proof.
  intros Hnd. split; [|split; [|split]].
  - intros remote. now rewrite updateUser_ids.
  - intros i remote. unfold ids. rewrite deleteUser_users.
    destruct remote; [|exact Hnd].
    rewrite ids_removeById. now apply List.NoDup_filter.
  - intros newUser Hfresh. unfold ids. cbn. now constructor.
  - reflexivity.
Qed.

Lemma store_keeps_ids_distinct_witness :
  List.NoDup (ids (final (updateUser (Resolved bobRenamed) annAndBob)))
  /\ List.NoDup (ids (final (createUser (Resolved stranger) annAndBob))).
Proof.
  destruct (store_keeps_ids_distinct annAndBob) as (Hu & _ & Hc & _).
  - repeat constructor; simpl; intuition discriminate.
  - split; [apply Hu|]. apply Hc. simpl. intuition discriminate.
Defined.

End StoreIds.

Section StoreLookups.
Import useUsers.

Lemma find_None {A} (p : A -> bool) (l : list A) :
  List.Forall (fun x => p x = false) l -> find p l = None.
Proof.
  induction 1 as [|x l Hx Hl IH]; simpl; [reflexivity|]. now rewrite Hx.
Qed.

Lemma find_insert_first {A} (p : A -> bool) (l : list A) (i : nat) (x u : A) :
  l !! i = Some x -> p u = true ->
  (forall j y, (j < i)%nat -> l !! j = Some y -> p y = false) ->
  find p (<[i := u]> l) = Some u.
Proof.
  revert i. induction l as [|z l IH]; intros [|i] Hx Hu Hfirst; try discriminate;
    simpl in *.
  - now rewrite Hu.
  - rewrite (Hfirst O z) by (lia || reflexivity).
    apply (IH i); [assumption .. |].
    intros j y Hj Hy. apply (Hfirst (S j) y); [lia | assumption].
Qed.

Lemma createUser_users (u : User) (s : State) :
  users (final (createUser (Resolved u) s)) = u :: users s.
Proof. reflexivity. Qed.

(** X9. A lookup by id sees what the store wrote: after a create that
    resolved with a record under the id, and after an update that
    resolved with a record under the id when the list held a record under
    it, [getUserById] returns that record from memory, without a remote
    call and without touching the state. *)
Theorem getUserById_after_write
    (i : string) (u : User) (s : State) (remote : Outcome (option User)) :
  id u = Some i ->
  (let s' := final (createUser (Resolved u) s) in
   getUserById i remote s' = mkRun [] (Some u) s')
  /\ (In (Some i) (ids s) ->
      let s' := final (updateUser (Resolved u) s) in
      getUserById i remote s' = mkRun [] (Some u) s').
Proof.
  intros Hid. split; cbv zeta.
  - unfold getUserById. rewrite createUser_users. cbn [find].
    rewrite Hid. cbn [optionStringEqb]. now rewrite String.eqb_refl.
  - intros Hin. unfold getUserById.
    rewrite (updateUser_users (Resolved u) s).
    destruct (findIndex (fun user => optionStringEqb (id user) (id u)) (users s))
      as [k|] eqn:F.
    + apply findIndex_Some in F as (old & Hold & Hp & Hfirst).
      rewrite (find_insert_first _ _ k old u); [reflexivity | assumption | |].
      * rewrite Hid. cbn [optionStringEqb]. apply String.eqb_refl.
      * intros j y Hj Hy. rewrite <- Hid. now apply (Hfirst j y).
    + exfalso. apply findIndex_None in F. rewrite List.Forall_forall in F.
      unfold ids in Hin. apply in_map_iff in Hin as (x & Hx & Hxin).
      specialize (F x Hxin). cbv beta in F. rewrite Hx, Hid in F.
      cbn [optionStringEqb] in F. now rewrite String.eqb_refl in F.
Qed.

Lemma getUserById_after_write_witness :
  returned (getUserById "b" (Rejected ThrownOther)
              (final (updateUser (Resolved bobRenamed) annAndBob)))
  = Some bobRenamed.
Proof.
  destruct (getUserById_after_write "b" bobRenamed annAndBob (Rejected ThrownOther))
    as [_ H].
  - reflexivity.
  - cbv zeta in H. rewrite H; [reflexivity|]. right. left. reflexivity.
Defined.

(** X10. After a delete of an id that the remote store accepted, a lookup
    of that id finds nothing in memory: it goes to the remote store through
    the wrapper and returns the remote store's answer, or null with the
    message of the failure when the remote call is rejected. *)
Theorem getUserById_after_delete
    (i : string) (s : State) (remote : Outcome (option User)) :
  let s' := final (deleteUser i (Resolved tt) s) in
  find (fun user => optionStringEqb (id user) (Some i)) (users s') = None
  /\ followsContract remote s' (getUserById i remote s') None (fun found => found).
Proof.
  cbv zeta.
  assert (F : find (fun user => optionStringEqb (id user) (Some i))
                   (users (final (deleteUser i (Resolved tt) s))) = None).
  { rewrite deleteUser_users. apply find_None.
    eapply List.Forall_impl; [|apply removeById_removed].
    intros u Hu. now apply optionStringEqb_neq. }
  split; [exact F|].
  unfold getUserById. rewrite F.
  destruct remote as [found|err]; contract_by_computation.
Qed.

(** X11. A create that resolved with a record under an id no in-memory
    record had, followed by a delete of that id that the remote store
    accepted, leaves the in-memory list as it was before the create. *)
Theorem createUser_then_deleteUser (i : string) (u : User) (s : State) :
  id u = Some i ->
  List.Forall (fun x => id x <> Some i) (users s) ->
  users (final (deleteUser i (Resolved tt) (final (createUser (Resolved u) s))))
  = users s.
Proof.
  intros Hid Hfresh. rewrite deleteUser_users, createUser_users.
  unfold removeById. cbn [List.filter]. rewrite Hid. cbn [optionStringEqb].
  rewrite String.eqb_refl. cbn [negb].
  now apply removeById_absent.
Qed.

Lemma createUser_then_deleteUser_witness :
  users (final (deleteUser "z" (Resolved tt)
                  (final (createUser (Resolved stranger) annAndBob))))
  = [ann; bob].
Proof.
  apply (createUser_then_deleteUser "z" stranger annAndBob).
  - reflexivity.
  - repeat constructor; discriminate.
Defined.

End StoreLookups.

Section StoreSortAndFilter.
Import useUsers useFilteredUsers.

Lemma sort_ext {A} (f g : A -> A -> Z) (l : list A) :
  (forall x y, f x y = g x y) -> JsArray.sort f l = JsArray.sort g l.
Proof.
  intros H. induction l as [|x l IH]; [reflexivity|].
  change (JsArray.insertSorted f x (JsArray.sort f l)
          = JsArray.insertSorted g x (JsArray.sort g l)).
  rewrite IH. generalize (JsArray.sort g l). intros m.
  induction m as [|y m IHm]; simpl; [reflexivity|]. now rewrite H, IHm.
Qed.

Lemma compareStored_compareUsers (rt : Runtime) (key : SortKey) (o : SortOrder)
    (a b : User) :
  isKeyProfilePicture key = false ->
  compareStored rt key o a b = compareUsers rt (mkSortCriteria key o) a b.
Proof.
  unfold compareStored, compareUsers. cbn [sortBy sortOrder].
  destruct key; cbn [field isKeyGender isKeyProfilePicture ofOptionString];
    try discriminate; intros _; try reflexivity.
  destruct (id a), (id b); reflexivity.
Qed.

(** X12. The store's own [sortUsers] and [filterUsersByGender] agree with
    the query engine: for every key but profilePicture, [sortUsers] gives
    the view of the list under no filter, and [filterUsersByGender] keeps
    the records the engine's gender stage keeps.  Neither changes the
    store's list. *)
Theorem sortUsers_agrees_with_view
    (rt : Runtime) (key : SortKey) (o : SortOrder) (s : State) :
  isKeyProfilePicture key = false ->
  sortUsers rt key o s = view rt noFilter (mkSortCriteria key o) (users s)
  /\ Permutation (sortUsers rt key o s) (users s)
  /\ (forall g, filterUsersByGender (Some g) s
                = applyGender (mkFilterCriteria (GenderIs g) PictureAll
                                 EmptyString EmptyString EmptyString) (users s))
  /\ filterUsersByGender None s = users s.
Proof.
  intros Hkey. split; [|split; [|split]]; try reflexivity.
  - unfold sortUsers, view. change (applyFilters rt noFilter (users s)) with (users s).
    apply sort_ext. intros a b. now apply compareStored_compareUsers.
  - apply sort_Permutation.
Qed.

Lemma sortUsers_agrees_with_view_witness :
  sortUsers utcRuntime KeyName asc annAndBob = [ann; bob]
  /\ sortUsers utcRuntime KeyName desc annAndBob
     = view utcRuntime noFilter (mkSortCriteria KeyName desc) [ann; bob].
Proof.
  split; [reflexivity|].
  now apply (sortUsers_agrees_with_view utcRuntime KeyName desc annAndBob).
Defined.

(** X13. By profilePicture the two sorts differ: ascending, the query
    engine puts a record without a picture after one with a picture,
    while [sortUsers] compares the empty string with the picture by the
    collation, and leaves the order alone when the picture is undefined. *)
Theorem sortUsers_differs_by_picture (rt : Runtime) (a b : User) (p : string) :
  profilePicture b = Some p ->
  JsString.truthy p = true ->
  (profilePicture a = None ->
   compareStored rt KeyProfilePicture asc a b = 0
   /\ compareUsers rt (mkSortCriteria KeyProfilePicture asc) a b = 1)
  /\ (profilePicture a = Some EmptyString ->
      compareStored rt KeyProfilePicture asc a b = localeCompare rt EmptyString p
      /\ compareUsers rt (mkSortCriteria KeyProfilePicture asc) a b = 1).
Proof.
  intros Hb Hp. unfold compareStored, compareUsers.
  cbn [sortBy sortOrder field isKeyGender isKeyProfilePicture].
  rewrite Hb. split; intros ->; cbn; destruct p; try discriminate; split; reflexivity.
Qed.

Lemma sortUsers_differs_by_picture_witness :
  sortUsers utcRuntime KeyProfilePicture asc (mkState [bob; ann] false None) = [bob; ann]
  /\ view utcRuntime noFilter (mkSortCriteria KeyProfilePicture asc) [bob; ann] = [ann; bob]
  /\ compareUsers utcRuntime (mkSortCriteria KeyProfilePicture asc) bob ann = 1.
Proof.
  split; [reflexivity|]. split; [reflexivity|].
  destruct (sortUsers_differs_by_picture utcRuntime bob ann "http://x") as [_ H];
    [reflexivity | reflexivity |].
  exact (proj2 (H eq_refl)).
Defined.

End StoreSortAndFilter.

(** ** The CSV exporter: the export reads back *)

Section CsvReadBack.
Import JsString CsvExport Props.

Lemma string_append_assoc (a b c : string) :
  String.append (String.append a b) c = String.append a (String.append b c).
Proof. induction a as [|x a IH]; simpl; [reflexivity | now rewrite IH]. Qed.

Lemma string_append_empty_r (a : string) : String.append a EmptyString = a.
Proof. induction a as [|x a IH]; simpl; [reflexivity | now rewrite IH]. Qed.

(** At the end of a field every state but [Quoted] reads on alike. *)
Lemma readCsv_atFieldEnd (st : ReaderState) records fields cur rest :
  st <> Quoted -> atFieldEnd rest ->
  readCsv st records fields cur rest = readCsv Bare records fields cur rest.
Proof.
  intros Hst [->|[[r ->]|[r ->]]]; destruct st; try congruence; reflexivity.
Qed.

Lemma readCsv_bare (st : ReaderState) records fields (cur v rest : string) :
  st = FieldStart \/ st = Bare ->
  needsQuoting v = false -> atFieldEnd rest ->
  readCsv st records fields cur (String.append v rest)
  = readCsv Bare records fields (String.append cur v) rest.
Proof.
  revert st cur. induction v as [|c v IH]; intros st cur Hst Hv Hrest.
  - cbn [String.append]. rewrite string_append_empty_r.
    apply readCsv_atFieldEnd; [destruct Hst; subst; discriminate | assumption].
  - unfold needsQuoting in Hv.
    apply orb_false_iff in Hv as [Hv H3]. apply orb_false_iff in Hv as [H1 H2].
    cbn [includes] in H1, H2, H3.
    destruct (Ascii.eqb c comma) eqn:E1; [discriminate|].
    destruct (Ascii.eqb c dquote) eqn:E2; [discriminate|].
    destruct (Ascii.eqb c newline) eqn:E3; [discriminate|].
    assert (Hv' : needsQuoting v = false).
    { unfold needsQuoting. now rewrite H1, H2, H3. }
    cbn [String.append readCsv]. rewrite E1, E2, E3.
    replace (String.append cur (String c v))
      with (String.append (String.append cur (String c EmptyString)) v)
      by (now rewrite string_append_assoc).
    destruct Hst as [-> | ->]; apply IH; auto.
Qed.

Lemma readCsv_quoted records fields (cur v rest : string) :
  readCsv Quoted records fields cur
    (String.append (replaceAll dquote (String dquote quoteStr) v) (String dquote rest))
  = readCsv QuoteSeen records fields (String.append cur v) rest.
Proof.
  revert cur. induction v as [|c v IH]; intros cur.
  - cbn [replaceAll String.append readCsv]. rewrite Ascii.eqb_refl.
    now rewrite string_append_empty_r.
  - cbn [replaceAll]. destruct (Ascii.eqb c dquote) eqn:E.
    + apply Ascii.eqb_eq in E as ->.
      change (String.append (String dquote quoteStr) ?x)
        with (String dquote (String dquote x)).
      cbn [String.append readCsv]. rewrite Ascii.eqb_refl.
      change (Ascii.eqb dquote comma) with false.
      change (Ascii.eqb dquote newline) with false. cbn iota.
      rewrite IH. unfold quoteStr. now rewrite string_append_assoc.
    + cbn [String.append readCsv]. rewrite E, IH. now rewrite string_append_assoc.
Qed.

(** One written field reads back as the value. *)
Lemma readCsv_field records fields (v rest : string) :
  atFieldEnd rest ->
  readCsv FieldStart records fields EmptyString
    (String.append (escapeCsvValue (VString v)) rest)
  = readCsv Bare records fields v rest.
Proof.
  intros Hrest. cbn [escapeCsvValue]. destruct (needsQuoting v) eqn:E.
  - unfold quoted, quoteStr. rewrite !string_append_assoc.
    cbn [String.append readCsv]. rewrite Ascii.eqb_refl.
    change (Ascii.eqb dquote comma) with false.
    change (Ascii.eqb dquote newline) with false. cbn iota.
    rewrite readCsv_quoted. cbn [String.append].
    apply readCsv_atFieldEnd; [discriminate | assumption].
  - now rewrite (readCsv_bare FieldStart) by auto.
Qed.

Lemma writeRow_cons (v w : string) (ws : list string) :
  writeRow (v :: w :: ws)
  = String.append (escapeCsvValue (VString v)) (String comma (writeRow (w :: ws))).
Proof. reflexivity. Qed.

(** One written row, up to the end of the text or a newline, reads back
    as the values. *)
Lemma readCsv_row records fields (vs : list string) (rest : string) :
  vs <> [] ->
  rest = EmptyString \/ (exists r, rest = String newline r) ->
  readCsv FieldStart records fields EmptyString (String.append (writeRow vs) rest)
  = match rest with
    | EmptyString => Some (records ++ [fields ++ vs])
    | String _ r => readCsv FieldStart (records ++ [fields ++ vs]) [] EmptyString r
    end.
Proof.
  intros Hvs Hrest. revert fields.
  induction vs as [|v [|w ws] IH]; intros fields; [congruence| |].
  - change (writeRow [v]) with (escapeCsvValue (VString v)).
    rewrite readCsv_field by (destruct Hrest as [->|[r ->]]; [left | right; right; eauto]; reflexivity).
    destruct Hrest as [->|[r ->]]; reflexivity.
  - rewrite writeRow_cons, string_append_assoc.
    rewrite readCsv_field by (right; left; eexists; reflexivity).
    cbn [String.append readCsv]. rewrite Ascii.eqb_refl.
    rewrite IH by discriminate.
    rewrite <- app_assoc. reflexivity.
Qed.

Lemma writeRows_cons (r q : list string) (rows : list (list string)) :
  writeRows (r :: q :: rows)
  = String.append (writeRow r) (String newline (writeRows (q :: rows))).
Proof. reflexivity. Qed.

Lemma readCsv_rows records (rows : list (list string)) :
  rows <> [] -> List.Forall (fun r => r <> []) rows ->
  readCsv FieldStart records [] EmptyString (writeRows rows) = Some (records ++ rows).
Proof.
  intros Hne Hrows. revert records.
  induction Hrows as [|r rows Hr Hrows IH]; intros records; [congruence|].
  destruct rows as [|q rows].
  - change (writeRows [r]) with (writeRow r).
    rewrite <- (string_append_empty_r (writeRow r)).
    now rewrite readCsv_row by auto.
  - rewrite writeRows_cons.
    rewrite readCsv_row by (auto; right; eexists; reflexivity).
    rewrite IH by discriminate. now rewrite <- app_assoc.
Qed.

Lemma usersToCSV_writeRows (users : list User) :
  usersToCSV users = writeRows (headers :: List.map values users).
Proof.
  unfold usersToCSV, writeRows. cbn [List.map]. rewrite List.map_map. reflexivity.
Qed.

(** X14. The export reads back: read by the usual rules of CSV, the text
    of an export is the header record followed by one record of eight
    fields for each user, the fields being the user's values (name, email,
    the three formatted dates, gender, picture and id, an absent picture
    or id as the empty field), whatever commas, double quotes or newlines
    the values hold.  So two lists of users with different values never
    give the same text. *)
Theorem usersToCSV_reads_back (users : list User) :
  readCsvText (usersToCSV users) = Some (headers :: List.map values users)
  /\ (forall users' : list User,
        usersToCSV users = usersToCSV users' ->
        List.map values users = List.map values users').
Proof.
  assert (R : forall us, readCsvText (usersToCSV us) = Some (headers :: List.map values us)).
  { intros us. unfold readCsvText. rewrite usersToCSV_writeRows.
    - apply (readCsv_rows []); [discriminate|].
      constructor; [discriminate|].
      apply List.Forall_forall. intros r Hr.
      apply in_map_iff in Hr as (u & <- & _). discriminate. }
  split; [apply R|].
  intros users' E. pose proof (R users) as H. rewrite E, R in H. congruence.
Qed.

End CsvReadBack.

(** ** The calendar: every day number is a date that exists *)

Section CalendarValid.

Lemma doy_common_year (doe yoe : Z) : 0 <= doe < 146097 ->
  yoe = (doe - doe / 1460 + doe / 36524 - doe / 146096) / 365 ->
  (yoe + 1) mod 4 <> 0 \/ ((yoe + 1) mod 100 = 0 /\ (yoe + 1) mod 400 <> 0) ->
  doe - (365 * yoe + yoe / 4 - yoe / 100) <= 364.
Proof.
  intros H -> [Hm|[Hm Hn]]; Z.div_mod_to_equations; lia.
Qed.

Lemma month_length (doy mp d : Z) : 0 <= doy <= 365 ->
  mp = (5 * doy + 2) / 153 ->
  d = doy - (153 * mp + 2) / 5 + 1 ->
  (mp = 0 \/ mp = 2 \/ mp = 4 \/ mp = 5 \/ mp = 7 \/ mp = 9 \/ mp = 10 -> d <= 31)
  /\ (mp = 1 \/ mp = 3 \/ mp = 6 \/ mp = 8 -> d <= 30)
  /\ (mp = 11 -> d <= 29 /\ (doy <= 364 -> d <= 28)).
Proof. intros H -> ->. Z.div_mod_to_equations. lia. Qed.

Lemma isLeapYear_false (y : Z) :
  isLeapYear y = false ->
  y mod 4 <> 0 \/ (y mod 100 = 0 /\ y mod 400 <> 0).
Proof.
  unfold isLeapYear. intros H.
  apply orb_false_iff in H as [H1 H2]. apply Z.eqb_neq in H2.
  apply andb_false_iff in H1 as [H1|H1].
  - apply Z.eqb_neq in H1. now left.
  - apply negb_false_iff, Z.eqb_eq in H1. right. now split.
Qed.

(** The day of the month of a day number is a day of its month. *)
Lemma civilFromDays_valid (z : Z) :
  let '(y, m, d) := civilFromDays z in d <= DaysInMonth y m.
Proof.
  unfold civilFromDays.
  set (z' := z + 719468). set (era := z' / 146097).
  set (doe := z' - era * 146097).
  assert (Hdoe : 0 <= doe < 146097).
  { subst doe era. pose proof (Z.mod_pos_bound z' 146097 ltac:(lia)) as H.
    rewrite Z.mod_eq in H by lia. lia. }
  set (yoe := (doe - doe / 1460 + doe / 36524 - doe / 146096) / 365).
  pose proof (yoe_range doe Hdoe) as Hyoe. fold yoe in Hyoe.
  set (doy := doe - (365 * yoe + yoe / 4 - yoe / 100)).
  pose proof (doy_range doe yoe Hdoe eq_refl) as Hdoy. fold doy in Hdoy.
  pose proof (doy_common_year doe yoe Hdoe eq_refl) as Hcommon. fold doy in Hcommon.
  remember ((5 * doy + 2) / 153) as mp eqn:Emp.
  pose proof (month_day_range doy mp Hdoy Emp) as [Hmp _].
  remember (doy - (153 * mp + 2) / 5 + 1) as d eqn:Ed.
  destruct (month_length doy mp d Hdoy Emp Ed) as (H31 & H30 & H29).
  clear Emp Ed.
  assert (Hcase : mp = 0 \/ mp = 1 \/ mp = 2 \/ mp = 3 \/ mp = 4 \/ mp = 5 \/ mp = 6
                  \/ mp = 7 \/ mp = 8 \/ mp = 9 \/ mp = 10 \/ mp = 11) by lia.
  unfold DaysInMonth.
  repeat (destruct Hcase as [Hcase|Hcase];
          [subst mp; first [apply H31; lia | apply H30; lia]|]).
  - subst mp.
    change (if 11 <? 10 then 11 + 3 else 11 - 9) with 2.
    change (2 =? 2) with true. change (2 <=? 2) with true. cbv iota.
    destruct (H29 eq_refl) as [Hle29 Hle28].
    destruct (isLeapYear (yoe + era * 400 + 1)) eqn:L; [exact Hle29|].
    apply Hle28, Hcommon.
    apply isLeapYear_false in L.
    destruct L as [L|[L1 L2]]; [left | right; split];
      revert Hyoe; try revert L; try revert L1; try revert L2;
      clear; intros; Z.div_mod_to_equations; lia.
Qed.

End CalendarValid.

(** ** Dates written as YYYY-MM-DD parse back *)

Section ParseFormatted.
Import JsString CsvExport Props.

Lemma string_length_4 (a : string) : String.length a = 4%nat ->
  exists c1 c2 c3 c4, a = String c1 (String c2 (String c3 (String c4 EmptyString))).
Proof.
  destruct a as [|c1 [|c2 [|c3 [|c4 [|c5 a]]]]]; try discriminate. eauto.
Qed.

Lemma string_length_2 (a : string) : String.length a = 2%nat ->
  exists c1 c2, a = String c1 (String c2 EmptyString).
Proof.
  destruct a as [|c1 [|c2 [|c3 a]]]; try discriminate. eauto.
Qed.

Lemma parseDateOnly_shape (a b c : string) :
  String.length a = 4%nat -> String.length b = 2%nat -> String.length c = 2%nat ->
  parseDateOnly
    (String.append a (String.append "-" (String.append b (String.append "-" c))))
  = match digitsVal 0 a, digitsVal 0 b, digitsVal 0 c with
    | Some y, Some m, Some d =>
        if (1 <=? m) && (m <=? 12) && (1 <=? d) && (d <=? DaysInMonth y m)
        then Some (daysFromCivil y m d * msPerDay)
        else None
    | _, _, _ => None
    end.
Proof.
  intros Ha Hb Hc.
  destruct (string_length_4 a Ha) as (a1 & a2 & a3 & a4 & ->).
  destruct (string_length_2 b Hb) as (b1 & b2 & ->).
  destruct (string_length_2 c Hc) as (c1 & c2 & ->).
  unfold parseDateOnly.
  cbn [String.append String.length Nat.eqb String.substring String.get].
  destruct (digitsVal 0 (String a1 (String a2 (String a3 (String a4 EmptyString)))));
    [|reflexivity].
  destruct (digitsVal 0 (String b1 (String b2 EmptyString))); [|reflexivity].
  reflexivity.
Qed.

(** A date that exists, written as YYYY-MM-DD, parses as its midnight
    UTC. *)
Lemma parseDateOnly_written (y m d : Z) :
  0 <= y <= 9999 -> 1 <= m <= 12 -> 1 <= d <= DaysInMonth y m ->
  parseDateOnly
    (String.append (padDec 4 y)
       (String.append "-" (String.append (padDec 2 m) (String.append "-" (padDec 2 d)))))
  = Some (daysFromCivil y m d * msPerDay).
Proof.
  intros Hy Hm Hd.
  assert (Hd31 : d <= 31).
  { unfold DaysInMonth in Hd.
    destruct (m =? 2); [destruct (isLeapYear y)|destruct (_ || _)]; lia. }
  rewrite parseDateOnly_shape by apply padDec_length.
  rewrite !digitsVal_padDec.
  change (0 * 10 ^ Z.of_nat 4) with 0. change (0 * 10 ^ Z.of_nat 2) with 0.
  change (10 ^ Z.of_nat 4) with 10000. change (10 ^ Z.of_nat 2) with 100.
  rewrite !Z.add_0_l, !Z.mod_small by lia.
  replace (1 <=? m) with true by (symmetry; apply Z.leb_le; lia).
  replace (m <=? 12) with true by (symmetry; apply Z.leb_le; lia).
  replace (1 <=? d) with true by (symmetry; apply Z.leb_le; lia).
  replace (d <=? DaysInMonth y m) with true by (symmetry; apply Z.leb_le; lia).
  reflexivity.
Qed.

(** The calendar date of a time value with a four-digit year parses as
    the midnight UTC that begins its day. *)
Lemma parseDateOnly_utcCalendarDate (tv : Z) :
  0 <= YearFromTime tv <= 9999 ->
  parseDateOnly (utcCalendarDate tv) = Some (Day tv * msPerDay).
Proof.
  intros Hy. unfold utcCalendarDate.
  unfold YearFromTime, MonthFromTime, DateFromTime in *.
  pose proof (civilFromDays_spec (Day tv)) as Hs.
  pose proof (civilFromDays_valid (Day tv)) as Hv.
  destruct (civilFromDays (Day tv)) as [[y m] d]. cbn [fst snd] in *.
  destruct Hs as (Hm & Hd & <-).
  replace (m - 1 + 1) with m by lia.
  apply parseDateOnly_written; lia.
Qed.

End ParseFormatted.

(** ** The date filters, for every filter date *)

Section DateFilters.
Import JsString JsArray useFilteredUsers.

Lemma parseDateOnly_truthy (s : string) (f : Z) :
  parseDateOnly s = Some f -> truthy s = true.
Proof. destruct s; [discriminate | reflexivity]. Qed.

Lemma dateStage_parsed (rt : Runtime) (s : string) (f : Z)
    (get : User -> Date) (u : User) :
  parseDateOnly s = Some f ->
  dateStage rt s get u = true <-> onLocalDayOf rt f (get u).
Proof.
  intros Hs. unfold dateStage, ofDate, ofString. rewrite Hs.
  apply sameDateString_iff.
Qed.

Lemma applyDate_parsed (rt : Runtime) (s : string) (f : Z)
    (get : User -> Date) (l : list User) (u : User) :
  parseDateOnly s = Some f ->
  In u (applyDate rt s get l) <-> In u l /\ onLocalDayOf rt f (get u).
Proof.
  intros Hs. unfold applyDate. rewrite (parseDateOnly_truthy s f Hs).
  rewrite filter_In, (dateStage_parsed rt s f get u Hs). reflexivity.
Qed.

(** X15. Each of the three date filters on its own, whatever the other
    filters are set to: set to a date YYYY-MM-DD that exists, its stage
    keeps exactly the records whose date is valid and falls, in the local
    time zone, on the calendar day on which midnight UTC of the filter's
    date falls (the time of day of the record's date plays no part); left
    empty, its stage keeps every record. *)
Theorem date_filters_compare_local_days
    (rt : Runtime) (fc : FilterCriteria) (l : list User) :
  (forall f, parseDateOnly (dateOfBirthFilter fc) = Some f ->
     forall u, In u (applyStage rt fc StageDateOfBirth l)
               <-> In u l /\ onLocalDayOf rt f (dateOfBirth u))
  /\ (forall f, parseDateOnly (createdAtFilter fc) = Some f ->
        forall u, In u (applyStage rt fc StageCreatedAt l)
                  <-> In u l /\ onLocalDayOf rt f (createdAt u))
  /\ (forall f, parseDateOnly (updatedAtFilter fc) = Some f ->
        forall u, In u (applyStage rt fc StageUpdatedAt l)
                  <-> In u l /\ onLocalDayOf rt f (updatedAt u))
  /\ (dateOfBirthFilter fc = EmptyString -> applyStage rt fc StageDateOfBirth l = l)
  /\ (createdAtFilter fc = EmptyString -> applyStage rt fc StageCreatedAt l = l)
  /\ (updatedAtFilter fc = EmptyString -> applyStage rt fc StageUpdatedAt l = l).
Proof.
  unfold applyStage.
  split; [|split; [|split; [|split; [|split]]]].
  - intros f Hf u. now apply applyDate_parsed.
  - intros f Hf u. now apply applyDate_parsed.
  - intros f Hf u. now apply applyDate_parsed.
  - intros ->. reflexivity.
  - intros ->. reflexivity.
  - intros ->. reflexivity.
Qed.

Lemma date_filters_compare_local_days_witness :
  (In (bornAt "early" t_2000_01_01_000001)
      (applyStage utcPlus8Runtime (onlyDateOfBirth "2000-01-01") StageDateOfBirth
         [ bornAt "late" t_2000_01_01_235959; bornAt "early" t_2000_01_01_000001 ])
   <-> In (bornAt "early" t_2000_01_01_000001)
          [ bornAt "late" t_2000_01_01_235959; bornAt "early" t_2000_01_01_000001 ]
       /\ onLocalDayOf utcPlus8Runtime startOf_2000_01_01
                       (TimeValue t_2000_01_01_000001))
  /\ applyStage utcPlus8Runtime (onlyDateOfBirth "2000-01-01") StageCreatedAt
        [ bornAt "late" t_2000_01_01_235959; bornAt "early" t_2000_01_01_000001 ]
     = [ bornAt "late" t_2000_01_01_235959; bornAt "early" t_2000_01_01_000001 ].
Proof.
  destruct (date_filters_compare_local_days utcPlus8Runtime
              (onlyDateOfBirth "2000-01-01")
              [ bornAt "late" t_2000_01_01_235959; bornAt "early" t_2000_01_01_000001 ])
    as (Hb & _ & _ & _ & Hc & _).
  split.
  - apply (Hb startOf_2000_01_01). reflexivity.
  - apply Hc. reflexivity.
Defined.

Lemma sameDateString_invalid (rt : Runtime) (d : Date) :
  sameDateString rt InvalidDate d = true <-> d = InvalidDate.
Proof.
  unfold sameDateString. rewrite String.eqb_eq. destruct d as [tv|]; cbn [toDateString].
  - split; [|discriminate]. intros E. now apply DateString_valid in E.
  - tauto.
Qed.

(** X16. A date filter whose value is not empty and does not parse (the
    runtime reads it as the invalid date) keeps exactly the records whose
    date is invalid: every record with a valid date is dropped. *)
Theorem date_filter_unparsed_keeps_invalid
    (rt : Runtime) (s : string) (get : User -> Date) (l : list User) :
  truthy s = true ->
  ofString (parseOther rt) s = InvalidDate ->
  applyDate rt s get l
  = List.filter (fun u => match get u with InvalidDate => true | _ => false end) l
  /\ (forall u, In u (applyDate rt s get l) <-> In u l /\ get u = InvalidDate).
Proof.
  intros Ht Hs.
  assert (E : forall u, dateStage rt s get u
                        = match get u with InvalidDate => true | _ => false end).
  { intros u. unfold dateStage, ofDate. rewrite Hs.
    pose proof (sameDateString_invalid rt (get u)) as H.
    destruct (get u) as [tv|]; [|now apply H].
    destruct (sameDateString rt InvalidDate (TimeValue tv)); [|reflexivity].
    destruct H as [H _]. discriminate (H eq_refl). }
  unfold applyDate. rewrite Ht. split.
  - apply filter_ext. exact E.
  - intros u. rewrite filter_In, E. destruct (get u); split; intros [? ?];
      (split; [assumption|]); congruence.
Qed.

Lemma date_filter_unparsed_keeps_invalid_witness :
  applyDate utcRuntime "yesterday" createdAt [bob; undatedUser "x"; ann]
  = [undatedUser "x"].
Proof.
  destruct (date_filter_unparsed_keeps_invalid utcRuntime "yesterday" createdAt
              [bob; undatedUser "x"; ann]) as [E _]; [reflexivity | reflexivity |].
  rewrite E. reflexivity.
Defined.

End DateFilters.

(** ** The user form: the date of birth through an edit *)

Section UserFormDate.
Import JsString CsvExport Props UserForm.

(** X17. Opening the edit form on a user whose date of birth is valid
    with a UTC year of four digits, and submitting the date field as the
    form filled it, gives the midnight UTC that begins the UTC day of the
    date of birth: the time of day is lost, the UTC calendar day is kept,
    and a second edit changes nothing more.  On a user whose date of birth
    is invalid the initial values cannot be computed. *)
Theorem form_date_round_trip (rt : Runtime) (tv : Z) :
  0 <= YearFromTime tv <= 9999 ->
  (exists value,
      initialDateOfBirth (TimeValue tv) = Some value
      /\ value = utcCalendarDate tv
      /\ submittedDateOfBirth rt value = Some (TimeValue (startOfUtcDay tv)))
  /\ Day (startOfUtcDay tv) = Day tv
  /\ startOfUtcDay (startOfUtcDay tv) = startOfUtcDay tv
  /\ initialDateOfBirth InvalidDate = None.
Proof.
  intros Hy.
  assert (Hday : Day (startOfUtcDay tv) = Day tv).
  { unfold startOfUtcDay, Day, msPerDay. apply Z.div_mul. lia. }
  split; [|split; [exact Hday|split; [|reflexivity]]].
  - exists (utcCalendarDate tv). split; [|split; [reflexivity|]].
    + unfold initialDateOfBirth, toISOString.
      change (String.append "T" (String.append (isoTime tv) "Z"))
        with (String "T" (String.append (isoTime tv) "Z")).
      rewrite splitHead_append, isoDate_fourDigitYear; [reflexivity | assumption |].
      apply (all_includes isDateChar); [apply isoDate_dateChars | reflexivity].
    + unfold submittedDateOfBirth, ofString.
      rewrite <- (isoDate_fourDigitYear tv Hy), isoDate_truthy.
      rewrite (isoDate_fourDigitYear tv Hy), (parseDateOnly_utcCalendarDate tv Hy).
      reflexivity.
  - unfold startOfUtcDay at 1. now rewrite Hday.
Qed.

Lemma form_date_round_trip_witness :
  exists value,
    initialDateOfBirth (TimeValue t_2000_01_01_235959) = Some value
    /\ value = "2000-01-01"%string
    /\ submittedDateOfBirth utcPlus8Runtime value = Some (TimeValue startOf_2000_01_01).
Proof.
  destruct (form_date_round_trip utcPlus8Runtime t_2000_01_01_235959)
    as [(value & H1 & H2 & H3) _].
  - vm_compute. split; discriminate.
  - exists value. split; [exact H1|]. split; [rewrite H2; reflexivity | exact H3].
Defined.

End UserFormDate.

(** ** Ages ([calculateAge] and the age check of the schemas) *)

Section Ages.
Import UserModel.

(** X18. The age computed for a valid date of birth is the number of its
    anniversaries that have come, by the local calendar: the anniversary
    of that number has come and the next one has not.  So the age check
    of the schemas accepts a date of birth exactly when its first
    anniversary has come and its 101st has not; it rejects an invalid
    date. *)
Theorem calculateAge_counts_anniversaries (rt : Runtime) (now b : Z) :
  (exists age, calculateAge rt now (TimeValue b) = Some age
               /\ anniversaryReached rt now b age
               /\ ~ anniversaryReached rt now b (age + 1))
  /\ (ageInRange rt now (TimeValue b) = true
      <-> anniversaryReached rt now b 1 /\ ~ anniversaryReached rt now b 101)
  /\ ageInRange rt now InvalidDate = false.
Proof.
  unfold ageInRange, calculateAge, anniversaryReached, dateNotAfter.
  generalize (getFullYear rt now), (getMonth rt now), (getDate rt now),
             (getFullYear rt b), (getMonth rt b), (getDate rt b).
  intros ty tm td y m d. cbv zeta.
  split; [|split; [|reflexivity]].
  - eexists. split; [reflexivity|].
    destruct ((tm - m <? 0) || ((tm - m =? 0) && (td <? d))) eqn:E.
    + apply orb_true_iff in E as [E|E].
      * apply Z.ltb_lt in E. lia.
      * apply andb_true_iff in E as [E1 E2]. apply Z.eqb_eq in E1.
        apply Z.ltb_lt in E2. lia.
    + apply orb_false_iff in E as [E1 E2]. apply Z.ltb_ge in E1.
      apply andb_false_iff in E2 as [E2|E2];
        [apply Z.eqb_neq in E2 | apply Z.ltb_ge in E2]; lia.
  - rewrite andb_true_iff, !Z.leb_le.
    destruct ((tm - m <? 0) || ((tm - m =? 0) && (td <? d))) eqn:E.
    + apply orb_true_iff in E as [E|E].
      * apply Z.ltb_lt in E. lia.
      * apply andb_true_iff in E as [E1 E2]. apply Z.eqb_eq in E1.
        apply Z.ltb_lt in E2. lia.
    + apply orb_false_iff in E as [E1 E2]. apply Z.ltb_ge in E1.
      apply andb_false_iff in E2 as [E2|E2];
        [apply Z.eqb_neq in E2 | apply Z.ltb_ge in E2]; lia.
Qed.

End Ages.

(** ** Dates of input fields ([formatDateForInput], [parseDateFromInput]) *)

Section InputDates.
Import JsString Props UserModel.

Lemma numDigitsAux_small (fuel : nat) (n : Z) :
  n < 10 -> numDigitsAux fuel n = 1%nat.
Proof.
  intros H. destruct fuel; cbn [numDigitsAux]; [reflexivity|].
  apply Z.ltb_lt in H. now rewrite H.
Qed.

Lemma numDigits_two (n : Z) : 10 <= n < 100 -> numDigits n = 2%nat.
Proof.
  intros H. unfold numDigits.
  assert (Hl : Z.log2 10 <= Z.log2 n) by (apply Z.log2_le_mono; lia).
  change (Z.log2 10) with 3 in Hl.
  destruct (Z.to_nat (Z.log2 n)) as [|f] eqn:E; [lia|].
  cbn [numDigitsAux]. destruct (Z.ltb_spec n 10); [lia|].
  rewrite numDigitsAux_small; [reflexivity|].
  apply Z.div_lt_upper_bound; lia.
Qed.

Lemma numDigits_four (n : Z) : 1000 <= n <= 9999 -> numDigits n = 4%nat.
Proof.
  intros H. unfold numDigits.
  assert (Hl : Z.log2 1000 <= Z.log2 n) by (apply Z.log2_le_mono; lia).
  change (Z.log2 1000) with 9 in Hl.
  destruct (Z.to_nat (Z.log2 n)) as [|[|[|f]]] eqn:E; [lia|lia|lia|].
  cbn [numDigitsAux].
  destruct (Z.ltb_spec n 10); [lia|].
  destruct (Z.ltb_spec (n / 10) 10);
    [assert (100 <= n / 10) by (apply Z.div_le_lower_bound; lia); lia|].
  destruct (Z.ltb_spec (n / 10 / 10) 10);
    [assert (10 <= n / 10 / 10)
       by (apply Z.div_le_lower_bound; [lia|];
           apply Z.div_le_lower_bound; lia); lia|].
  rewrite numDigitsAux_small; [reflexivity|].
  apply Z.div_lt_upper_bound; [lia|].
  apply Z.div_lt_upper_bound; [lia|].
  apply Z.div_lt_upper_bound; lia.
Qed.

Lemma numberToString_four (y : Z) :
  1000 <= y <= 9999 -> numberToString y = padDec 4 y.
Proof.
  intros H. unfold numberToString, ToZeroPaddedDecimalString.
  destruct (Z.ltb_spec y 0); [lia|].
  now rewrite numDigits_four.
Qed.

Lemma padStart0_two (n : Z) :
  0 <= n <= 99 -> padStart0 2 (numberToString n) = padDec 2 n.
Proof.
  intros H. unfold padStart0, numberToString, ToZeroPaddedDecimalString.
  destruct (Z.ltb_spec n 0); [lia|].
  destruct (Z_lt_le_dec n 10) as [Hs|Hs].
  - unfold numDigits. rewrite numDigitsAux_small by exact Hs.
    change (Nat.max 1 1) with 1%nat. rewrite padDec_length.
    cbn [Nat.sub zeros padDec String.append].
    rewrite (Z.div_small n 10) by lia. reflexivity.
  - rewrite numDigits_two by lia.
    change (Nat.max 1 2) with 2%nat. rewrite padDec_length.
    reflexivity.
Qed.

Lemma formatDateForInput_localDate (rt : Runtime) (t : Z) :
  1000 <= getFullYear rt t <= 9999 ->
  formatDateForInput rt (TimeValue t) = utcCalendarDate (localTimeOf rt t).
Proof.
  intros Hy. unfold formatDateForInput, utcCalendarDate, localTimeOf.
  cbv zeta. unfold getFullYear, getMonth, getDate in *.
  pose proof (MonthFromTime_range (LocalTime (LocalTZA rt) t)).
  pose proof (DateFromTime_range (LocalTime (LocalTZA rt) t)).
  rewrite numberToString_four by exact Hy.
  rewrite !padStart0_two by lia. reflexivity.
Qed.

(** A string that is blank after trimming holds white space only. *)
Lemma trim_empty_whitespace (s : string) :
  trim s = EmptyString ->
  forall n c, String.get n s = Some c -> isWhiteSpace c = true.
Proof.
  induction s as [|a s IH]; intros Ht n c G; [destruct n; discriminate|].
  unfold trim in Ht. cbn [trimStart] in Ht.
  destruct (isWhiteSpace a) eqn:E.
  - destruct n as [|n]; cbn [String.get] in G.
    + now injection G as <-.
    + exact (IH Ht n c G).
  - cbn [trimEnd] in Ht. rewrite E in Ht.
    destruct (trimEnd s); discriminate.
Qed.

Lemma parseDateOnly_not_blank (s : string) (f : Z) :
  parseDateOnly s = Some f -> String.eqb (trim s) EmptyString = false.
Proof.
  intros H. apply String.eqb_neq. intros Ht.
  unfold parseDateOnly in H.
  destruct (Nat.eqb (String.length s) 10); [|discriminate].
  destruct (digitsVal 0 (String.substring 0 4 s)); [|discriminate].
  destruct (String.get 4 s) as [c|] eqn:G; [|discriminate].
  pose proof (trim_empty_whitespace s Ht 4%nat c G) as W.
  destruct c as [[] [] [] [] [] [] [] []]; try discriminate H; discriminate W.
Qed.

Lemma parseDateFromInput_parsed (rt : Runtime) (s : string) (f : Z) :
  parseDateOnly s = Some f -> parseDateFromInput rt (Some s) = TimeValue f.
Proof.
  intros H. unfold parseDateFromInput, ofString.
  rewrite (parseDateOnly_truthy s f H), (parseDateOnly_not_blank s f H), H.
  reflexivity.
Qed.

Lemma localDate_year (rt : Runtime) (t : Z) :
  1000 <= getFullYear rt t <= 9999 ->
  0 <= YearFromTime (localTimeOf rt t) <= 9999.
Proof. unfold getFullYear, localTimeOf. lia. Qed.

Lemma input_round_trip (rt : Runtime) (t : Z) :
  1000 <= getFullYear rt t <= 9999 ->
  parseDateFromInput rt (Some (formatDateForInput rt (TimeValue t)))
  = TimeValue (startOfUtcDay (localTimeOf rt t)).
Proof.
  intros Hy. rewrite (formatDateForInput_localDate rt t Hy).
  apply parseDateFromInput_parsed.
  apply parseDateOnly_utcCalendarDate, localDate_year, Hy.
Qed.


(** X19. The value [formatDateForInput] gives for a valid date whose
    local year has four digits is the local calendar date as year, month
    and day in four, two and two digits, and [parseDateFromInput] reads
    that value as the midnight UTC that begins the day of that number.
    An invalid date is formatted as the empty string; an undefined, an
    empty and a blank value are parsed as the invalid date. *)
Theorem input_date_format_then_parse (rt : Runtime) (t : Z) :
  1000 <= getFullYear rt t <= 9999 ->
  formatDateForInput rt (TimeValue t) = utcCalendarDate (localTimeOf rt t)
  /\ parseDateFromInput rt (Some (formatDateForInput rt (TimeValue t)))
     = TimeValue (startOfUtcDay (localTimeOf rt t))
  /\ formatDateForInput rt InvalidDate = EmptyString
  /\ parseDateFromInput rt None = InvalidDate
  /\ (forall s, trim s = EmptyString -> parseDateFromInput rt (Some s) = InvalidDate).
Proof.
  intros Hy.
  split; [exact (formatDateForInput_localDate rt t Hy)|].
  split; [exact (input_round_trip rt t Hy)|].
  split; [reflexivity|]. split; [reflexivity|].
  intros s Hs. unfold parseDateFromInput. rewrite Hs.
  change (String.eqb EmptyString EmptyString) with true.
  now rewrite orb_true_r.
Qed.

Lemma input_date_format_then_parse_witness :
  formatDateForInput utcPlus8Runtime (TimeValue t_2000_01_01_235959)
  = "2000-01-02"%string
  /\ parseDateFromInput utcPlus8Runtime
       (Some (formatDateForInput utcPlus8Runtime (TimeValue t_2000_01_01_235959)))
     = TimeValue (startOf_2000_01_01 + msPerDay).
Proof.
  destruct (input_date_format_then_parse utcPlus8Runtime t_2000_01_01_235959)
    as (H1 & H2 & _).
  - vm_compute. split; discriminate.
  - split; [rewrite H1 | rewrite H2]; reflexivity.
Defined.





End InputDates.
